(** * INTERACTION track data API: a shallow embedding of
      [interaction/dataset/track_api.py]

    The scenario class reads one CSV file into a table, derives the per-case
    indices of tracks to predict and of interesting agents, and serves cases
    by slicing the motion-state layer into three time windows.

    Tables are lists of rows in file order, Python dictionaries that are
    only read by key are [gmap]s, the insertion-ordered [defaultdict] of
    [get_tracks_from_frame] is an association list, and exceptions are the
    left-hand side of a small error monad. *)

From Stdlib Require Import ZArith Ascii String List Lia.
From stdpp Require Import base option list gmap strings sorting pretty.

Open Scope string_scope.
Open Scope list_scope.
Open Scope Z_scope.

(** ** Exceptions and the error monad *)

Inductive exn : Type :=
  | ValueError (msg : string)
  | AssertionError (msg : string)
  | KeyError (key : Z)
  | AttributeError (msg : string)
  | IndexError (msg : string)
  | OSError (msg : string).

Inductive result (A : Type) : Type :=
  | Ok (a : A)
  | Raise (e : exn).
Arguments Ok {A} a.
Arguments Raise {A} e.

Global Instance result_ret : MRet result := fun A a => Ok a.
Global Instance result_bind : MBind result := fun A B f m =>
  match m with
  | Ok a => f a
  | Raise e => Raise e
  end.

(** [for x in xs: acc = body(acc, x)], stopping at the first exception. *)
Fixpoint for_each {A S : Type} (body : S -> A -> result S) (xs : list A)
    (acc : S) : result S :=
  match xs with
  | [] => Ok acc
  | x :: xs' => acc' ← body acc x; for_each body xs' acc'
  end.

(** [Series.apply(f)]: [f] on every cell in row order. *)
Fixpoint apply_each {A B : Type} (f : A -> result B) (xs : list A)
    : result (list B) :=
  match xs with
  | [] => Ok []
  | x :: xs' => y ← f x; ys ← apply_each f xs'; Ok (y :: ys)
  end.

(** ** Agent types *)

(** Modelled from the spec: [tracks/typing.py] is not among the sources; the
    spec names the members car and pedestrian/bicycle of the agent-type
    enumeration, and the code names [AgentType.CAR]. *)
Inductive AgentType : Type :=
  | CAR
  | PEDESTRIAN_BICYCLE.

Global Instance AgentType_eq_dec : EqDecision AgentType.
Proof. solve_decision. Defined.

(** A cell of the [agent_type] column: the text read from the file, or the
    enumeration member stored there once the column has been decoded. *)
Inductive agent_cell : Type :=
  | Raw (s : string)
  | Decoded (a : AgentType).

(** ** Rows, motion states, tracks and cases *)

(** One row of the track file.  [K] stands for the remaining kinematic
    columns ([x], [y], velocities, heading, size) that
    [MOTION_STATE_FIELD_MAPPING] copies into a motion state.  The two flag
    columns exist in test files only; the train/val branch never reads
    them. *)
Record Row (K : Type) : Type := mkRow {
  case_id : Z;
  track_id : Z;
  timestamp_ms : Z;
  agent_type : agent_cell;
  kinematics : K;
  tracks_to_predict : Z;
  interesting_agent : Z
}.
Arguments mkRow {K}.
Arguments case_id {K}.
Arguments track_id {K}.
Arguments timestamp_ms {K}.
Arguments agent_type {K}.
Arguments kinematics {K}.
Arguments tracks_to_predict {K}.
Arguments interesting_agent {K}.

(** A frame keeps its index levels as fields of the rows. *)
Abbreviation TrackFrame K := (list (Row K)) (only parsing).

(** Modelled from the spec: [tracks/container.py] is not among the sources.
    A motion state is one agent's state at one timestamp (agent id,
    timestamp, kinematic fields), a track is an agent id, an agent type and
    the motion states in order, and a case has the fields that [get_case]
    passes to its constructor.  The fields of the motion state and of the
    case carry a prefix, as their names are those of columns of the row. *)
Record MotionState (K : Type) : Type := mkMotionState {
  ms_agent_id : Z;
  ms_timestamp_ms : Z;
  ms_fields : K
}.
Arguments mkMotionState {K}.
Arguments ms_agent_id {K}.
Arguments ms_timestamp_ms {K}.
Arguments ms_fields {K}.

Record Track (K : Type) : Type := mkTrack {
  agent_id : Z;
  type : AgentType;
  motion_states : list (MotionState K)
}.
Arguments mkTrack {K}.
Arguments agent_id {K}.
Arguments type {K}.
Arguments motion_states {K}.

Record INTERACTIONCase (K : Type) : Type := mkCase {
  ic_location : string;
  ic_case_id : Z;
  ic_history_tracks : list (Track K);
  ic_current_tracks : list (Track K);
  ic_futural_tracks : list (Track K);
  ic_tracks_to_predict : list Z;
  ic_interesting_agents : list Z
}.
Arguments mkCase {K}.
Arguments ic_location {K}.
Arguments ic_case_id {K}.
Arguments ic_history_tracks {K}.
Arguments ic_current_tracks {K}.
Arguments ic_futural_tracks {K}.
Arguments ic_tracks_to_predict {K}.
Arguments ic_interesting_agents {K}.

(** ** Table operations of the dataframe library *)

(** [Series.unique()]: the distinct values in order of first appearance. *)
Fixpoint unique {A : Type} `{EqDecision A} (l : list A) : list A :=
  match l with
  | [] => []
  | x :: l' => x :: filter (fun y => y <> x) (unique l')
  end.

(** Python's [sub in s] on strings. *)
Fixpoint contains (sub s : string) : bool :=
  String.prefix sub s ||
  match s with
  | EmptyString => false
  | String _ s' => contains sub s'
  end.

(** [df.loc[case_id]] on the (case_id, track_id) index: the rows of that
    case in table order, a [KeyError] when the label is absent. *)
Definition loc_case {K : Type} (df : TrackFrame K) (c : Z)
    : result (TrackFrame K) :=
  match filter (fun r => case_id r = c) df with
  | [] => Raise (KeyError c)
  | rows => Ok rows
  end.

(** Lexicographic order on (case_id, track_id) keys, the order in which
    [groupby] lists its groups. *)
Definition key_le (k1 k2 : Z * Z) : Prop :=
  k1.1 < k2.1 \/ (k1.1 = k2.1 /\ k1.2 <= k2.2).

Global Instance key_le_dec : RelDecision key_le.
Proof. intros k1 k2. unfold key_le. apply _. Defined.

(** [d[key]] on a builtin dictionary. *)
Definition dict_getitem {V : Type} (d : gmap Z V) (key : Z) : result V :=
  match d !! key with
  | Some v => Ok v
  | None => Raise (KeyError key)
  end.

(** [d.to_dict()] on a builtin dictionary: [dict] has no such attribute.
    [DataFrame.to_dict()] already returns builtin dictionaries (column name
    to index label to value), so the value under a column name is a [dict],
    not a [Series]. *)
Definition dict_to_dict {A V : Type} (d : gmap Z V) : result A :=
  Raise (AttributeError "'dict' object has no attribute 'to_dict'").

(** [track_dict[k].append(v)] on a [defaultdict(list)]; a new key goes to the
    end, as dictionaries keep insertion order. *)
Fixpoint defaultdict_append {V : Type} (d : list (Z * list V)) (k : Z) (v : V)
    : list (Z * list V) :=
  match d with
  | [] => [(k, [v])]
  | (k', vs) :: d' =>
      if decide (k' = k) then (k', vs ++ [v]) :: d'
      else (k', vs) :: defaultdict_append d' k v
  end.

(** The ["min"], ["max"] and ["first"] aggregations of one group. *)
Definition series_min (l : list Z) : option Z :=
  match l with
  | [] => None
  | x :: l' => Some (foldl Z.min x l')
  end.

Definition series_max (l : list Z) : option Z :=
  match l with
  | [] => None
  | x :: l' => Some (foldl Z.max x l')
  end.

Definition series_first {A : Type} (l : list A) : option A := head l.

(** One row of the per-track aggregate of the train/val branch. *)
Record TrackAgg : Type := mkTrackAgg {
  min_timestamp : Z;
  max_timestamp : Z;
  agg_agent_type : agent_cell
}.

(** [groupby("case_id")] followed by a per-group function of the group's
    [track_id] column, read as a dictionary keyed by case id; the groups
    come in increasing key order. *)
Definition groupby_case_id (f : list Z -> list Z) (keys : list (Z * Z))
    : gmap Z (list Z) :=
  list_to_map
    (map (fun c => (c, f (map snd (filter (fun k => k.1 = c) keys))))
       (merge_sort Z.le (unique (map fst keys)))).

(** ** Dataset utilities ([interaction/dataset/utils.py])

    The list of locations, and the dictionary from split names to their
    locations as the list of its items in the order they are written. *)

Definition LOCATIONS : list string :=
  [ "DR_CHN_Merging_ZS0";
    "DR_CHN_Merging_ZS2";
    "DR_CHN_Roundabout_LN";
    "DR_DEU_Merging_MT";
    "DR_DEU_Roundabout_OF";
    "DR_Intersection_CM";
    "DR_LaneChange_ET0";
    "DR_LaneChange_ET1";
    "DR_Merging_TR0";
    "DR_Merging_TR1";
    "DR_Roundabout_RW";
    "DR_USA_Intersection_EP0";
    "DR_USA_Intersection_EP1";
    "DR_USA_Intersection_GL";
    "DR_USA_Intersection_MA";
    "DR_USA_Roundabout_EP";
    "DR_USA_Roundabout_FT";
    "DR_USA_Roundabout_SR" ].

Definition SPLITS : list (string * list string) :=
  [ ("train",
     [ "DR_CHN_Merging_ZS0";
       "DR_CHN_Merging_ZS2";
       "DR_CHN_Roundabout_LN";
       "DR_DEU_Merging_MT";
       "DR_DEU_Roundabout_OF";
       "DR_USA_Intersection_EP0";
       "DR_USA_Intersection_EP1";
       "DR_USA_Intersection_GL";
       "DR_USA_Intersection_MA";
       "DR_USA_Roundabout_EP";
       "DR_USA_Roundabout_FT";
       "DR_USA_Roundabout_SR" ]);
    ("val",
     [ "DR_CHN_Merging_ZS0";
       "DR_CHN_Merging_ZS2";
       "DR_CHN_Roundabout_LN";
       "DR_DEU_Merging_MT";
       "DR_DEU_Roundabout_OF";
       "DR_USA_Intersection_EP0";
       "DR_USA_Intersection_EP1";
       "DR_USA_Intersection_GL";
       "DR_USA_Intersection_MA";
       "DR_USA_Roundabout_EP";
       "DR_USA_Roundabout_FT";
       "DR_USA_Roundabout_SR" ]);
    ("test_multi-agent",
     [ "DR_CHN_Merging_ZS0";
       "DR_CHN_Merging_ZS2";
       "DR_DEU_Merging_MT";
       "DR_DEU_Roundabout_OF";
       "DR_Intersection_CM";
       "DR_LaneChange_ET0";
       "DR_LaneChange_ET1";
       "DR_Merging_TR0";
       "DR_Merging_TR1";
       "DR_Roundabout_RW";
       "DR_USA_Intersection_EP0";
       "DR_USA_Intersection_EP1";
       "DR_USA_Intersection_GL";
       "DR_USA_Intersection_MA";
       "DR_USA_Roundabout_EP";
       "DR_USA_Roundabout_FT";
       "DR_USA_Roundabout_SR" ]);
    ("test_single-agent",
     [ "DR_CHN_Merging_ZS0";
       "DR_CHN_Merging_ZS2";
       "DR_DEU_Merging_MT";
       "DR_DEU_Roundabout_OF";
       "DR_Intersection_CM";
       "DR_LaneChange_ET0";
       "DR_LaneChange_ET1";
       "DR_Merging_TR0";
       "DR_Merging_TR1";
       "DR_Roundabout_RW";
       "DR_USA_Intersection_EP0";
       "DR_USA_Intersection_EP1";
       "DR_USA_Intersection_GL";
       "DR_USA_Intersection_MA";
       "DR_USA_Roundabout_EP";
       "DR_USA_Roundabout_FT";
       "DR_USA_Roundabout_SR" ]);
    ("test_conditional-single-agent",
     [ "DR_CHN_Merging_ZS0";
       "DR_CHN_Merging_ZS2";
       "DR_DEU_Merging_MT";
       "DR_DEU_Roundabout_OF";
       "DR_Intersection_CM";
       "DR_LaneChange_ET1";
       "DR_Merging_TR0";
       "DR_Roundabout_RW";
       "DR_USA_Intersection_EP0";
       "DR_USA_Intersection_EP1";
       "DR_USA_Intersection_GL";
       "DR_USA_Intersection_MA";
       "DR_USA_Roundabout_EP";
       "DR_USA_Roundabout_FT";
       "DR_USA_Roundabout_SR" ]);
    ("test_conditional-multi-agent",
     [ "DR_CHN_Merging_ZS0";
       "DR_CHN_Merging_ZS2";
       "DR_DEU_Merging_MT";
       "DR_DEU_Roundabout_OF";
       "DR_Intersection_CM";
       "DR_LaneChange_ET1";
       "DR_Merging_TR0";
       "DR_Roundabout_RW";
       "DR_USA_Intersection_EP0";
       "DR_USA_Intersection_EP1";
       "DR_USA_Intersection_GL";
       "DR_USA_Intersection_MA";
       "DR_USA_Roundabout_EP";
       "DR_USA_Roundabout_FT";
       "DR_USA_Roundabout_SR" ]) ].

(** [SPLITS[key]]. *)
Definition splits_getitem (key : string) : option (list string) :=
  match list_find (fun kv : string * list string => kv.1 = key) SPLITS with
  | Some (_, kv) => Some kv.2
  | None => None
  end.

(** ** A sample installation

    Concrete stand-ins for the functions the class takes from elsewhere, and
    three small track files, used to run the class on examples. *)

Module Sample.

(** Modelled from the spec: [AgentType.deserialize] is not among the
    sources; the spec describes a lookup from canonical string keys to the
    members with an error for unknown keys.  A cell that already holds a
    member decodes to that member. *)
Definition deserialize (c : agent_cell) : result AgentType :=
  match c with
  | Decoded a => Ok a
  | Raw s =>
      if decide (s = "car") then Ok CAR
      else if decide (s = "pedestrian/bicycle") then Ok PEDESTRIAN_BICYCLE
      else Raise (ValueError ("Unknown agent type " +:+ s +:+ "."))
  end.

Definition AgentType_value (a : AgentType) : Z :=
  match a with
  | CAR => 1
  | PEDESTRIAN_BICYCLE => 2
  end.

(** Absolute POSIX paths as their parts, the root first. *)
Definition Path : Type := list string.

Fixpoint segments (s cur : string) : list string :=
  match s with
  | EmptyString => if decide (cur = "") then [] else [cur]
  | String ch s' =>
      if Ascii.eqb ch "/"%char then
        (if decide (cur = "") then [] else [cur]) ++ segments s' ""
      else segments s' (cur +:+ String ch "")
  end.

Definition Path_resolve (s : string) : Path := "/" :: segments s "".
Definition Path_parts (p : Path) : list string := p.
Definition Path_joinpath (p : Path) (name : string) : Path := p ++ [name].
Definition Path_str (p : Path) : string :=
  match p with
  | [] => "."
  | root :: rest => root +:+ String.concat "/" rest
  end.

Definition row (c t ts : Z) (ty : string) (p i : Z) : Row unit :=
  mkRow c t ts (Raw ty) tt p i.

(** A train file: two cases, each with a car observed from 100 to 4000. *)
Definition train_table : list (Row unit) :=
  [ row 1 7 100 "car" 0 0; row 1 7 1000 "car" 0 0; row 1 7 4000 "car" 0 0;
    row 1 8 100 "pedestrian/bicycle" 0 0;
    row 1 8 4000 "pedestrian/bicycle" 0 0;
    row 2 3 100 "car" 0 0; row 2 3 1100 "car" 0 0; row 2 3 4000 "car" 0 0 ].

(** A val file: case 1 has a car observed from 100 to 4000, case 2 has only
    a car that leaves at 1100. *)
Definition val_table : list (Row unit) :=
  [ row 1 7 100 "car" 0 0; row 1 7 1000 "car" 0 0; row 1 7 4000 "car" 0 0;
    row 2 3 100 "car" 0 0; row 2 3 1000 "car" 0 0; row 2 3 1100 "car" 0 0 ].

(** A test file with both flag columns: track 5 of case 1 is flagged, no
    row of case 2 is. *)
Definition test_table : list (Row unit) :=
  [ row 1 5 100 "car" 1 0; row 1 5 1000 "car" 1 1;
    row 1 6 100 "car" 0 0; row 1 6 1000 "car" 0 0;
    row 2 9 100 "car" 0 0; row 2 9 1000 "car" 0 0 ].

Definition read_csv (path : string) : result (list (Row unit)) :=
  if decide (path = "/data/train/DR_USA_Roundabout_FT_train.csv") then
    Ok train_table
  else if decide (path = "/data/val/DR_USA_Roundabout_FT_val.csv") then
    Ok val_table
  else if decide (path = "/data/test/DR_USA_Roundabout_FT_obs.csv") then
    Ok test_table
  else Raise (OSError ("No such file or directory: " +:+ path)).

(** A frame in which track 7 changes its agent type from one row to the
    next, and a frame that lists the same row twice. *)
Definition retyped_frame : list (Row unit) :=
  [ row 1 7 100 "car" 0 0; row 1 7 200 "pedestrian/bicycle" 0 0 ].

Definition repeated_frame : list (Row unit) :=
  [ row 1 5 100 "car" 0 0; row 1 5 100 "car" 0 0 ].

Definition case_render (case : INTERACTIONCase unit) (opts : unit)
    : result unit := Ok tt.

(** A frame whose second row has an agent type outside the table, and a
    table whose rows are not in timestamp order. *)
Definition undecodable_frame : list (Row unit) :=
  [ row 1 7 100 "car" 0 0; row 1 8 100 "truck" 0 0; row 1 7 200 "bus" 0 0 ].

Definition shuffled_table : list (Row unit) :=
  [ mkRow 2 3 1100 (Decoded CAR) tt 0 0;
    mkRow 1 8 300 (Decoded CAR) tt 0 0;
    mkRow 1 8 200 (Decoded PEDESTRIAN_BICYCLE) tt 0 0;
    mkRow 2 3 100 (Decoded CAR) tt 0 0;
    mkRow 1 8 200 (Decoded CAR) tt 0 0 ].

End Sample.

(** ** The scenario class *)

Section Scenario.

Context {K : Type}.

(** Functions of the libraries and of the sibling modules that the class
    calls: [AgentType.deserialize] and the members' integer [value]s
    ([tracks/typing.py]), [pathlib], [pandas.read_csv] with the table it
    parses from a path, and [INTERACTIONCase.render]
    ([tracks/container.py]) with its plotting options. *)
Variable deserialize : agent_cell -> result AgentType.
Variable AgentType_value : AgentType -> Z.
Variable Path : Type.
Variable Path_resolve : string -> Path.
Variable Path_parts : Path -> list string.
Variable Path_joinpath : Path -> string -> Path.
Variable Path_str : Path -> string.
Variable read_csv : string -> result (list (Row K)).
Variables RenderOptions Axes : Type.
Variable case_render : INTERACTIONCase K -> RenderOptions -> result Axes.

(** The object's slots.  [_frames] holds the motion-state layer; the
    track-summary layer is built at the end of construction and read by no
    accessor of the class, and is left out. *)
Record INTERACTIONScenario : Type := mkScenario {
  _location : string;
  _root : Path;
  _frames : TrackFrame K;
  _split : string;
  _tracks_to_predict : gmap Z (list Z);
  _interesting_agents : gmap Z (list Z);
  _num_cases : Z
}.

Definition num_cases (self : INTERACTIONScenario) : Z := _num_cases self.

Definition location (self : INTERACTIONScenario) : string := _location self.

Definition track_root (self : INTERACTIONScenario) : string :=
  Path_str (_root self).

(** The body of the [track_file] property, on the three slots it reads;
    construction calls it before the other slots exist. *)
Definition track_file_of (root : Path) (loc split : string) : string :=
  let filename :=
    if decide (split = "test") then loc +:+ "_obs.csv"
    else loc +:+ "_" +:+ split +:+ ".csv" in
  Path_str (Path_joinpath root filename).

Definition track_file (self : INTERACTIONScenario) : string :=
  track_file_of (_root self) (_location self) (_split self).

(** The loop body of [get_tracks_from_frame]: the motion state is appended
    before the agent type is decoded and stored. *)
Definition tracks_loop_body
    (acc : list (Z * list (MotionState K)) * gmap Z AgentType) (row : Row K)
    : result (list (Z * list (MotionState K)) * gmap Z AgentType) :=
  let motion_state :=
    mkMotionState (track_id row) (timestamp_ms row) (kinematics row) in
  let track_dict := defaultdict_append acc.1 (track_id row) motion_state in
  ty ← deserialize (agent_type row);
  Ok (track_dict, <[track_id row := ty]> acc.2).

Definition get_tracks_from_frame (frame : TrackFrame K)
    : result (list (Track K)) :=
  acc ← for_each tracks_loop_body frame ([], ∅);
  apply_each
    (fun kv => ty ← dict_getitem acc.2 kv.1; Ok (mkTrack kv.1 ty kv.2))
    acc.1.

Definition _get_history (self : INTERACTIONScenario) (c : Z)
    : result (TrackFrame K) :=
  df ← loc_case (_frames self) c;
  Ok (filter (fun r => timestamp_ms r <= 1000) df).

Definition _get_current (self : INTERACTIONScenario) (c : Z)
    : result (TrackFrame K) :=
  df ← loc_case (_frames self) c;
  Ok (filter (fun r => timestamp_ms r = 1000) df).

Definition _get_futural (self : INTERACTIONScenario) (c : Z)
    : result (TrackFrame K) :=
  df ← loc_case (_frames self) c;
  Ok (filter (fun r => timestamp_ms r > 1000) df).

Definition get_case (self : INTERACTIONScenario) (c : Z)
    : result (INTERACTIONCase K) :=
  history_tracks ← _get_history self c ≫= get_tracks_from_frame;
  current_tracks ← _get_current self c ≫= get_tracks_from_frame;
  futural_tracks ← _get_futural self c ≫= get_tracks_from_frame;
  to_predict ← dict_getitem (_tracks_to_predict self) c;
  interesting ← dict_getitem (_interesting_agents self) c;
  Ok (mkCase (_location self) c history_tracks current_tracks futural_tracks
        to_predict interesting).

Definition render (self : INTERACTIONScenario) (c : Z) (opts : RenderOptions)
    : result Axes :=
  if decide (c >= _num_cases self) then
    Raise (ValueError ("Invalid case_id " +:+ pretty c +:+ " for scenario "
                         +:+ _location self +:+ "."))
  else
    case ← get_case self c; case_render case opts.

Definition __getitem__ (self : INTERACTIONScenario) (c : Z)
    : result (INTERACTIONCase K) :=
  get_case self c.

Definition __len__ (self : INTERACTIONScenario) : Z := num_cases self.

(** *** Construction *)

Definition row_key (r : Row K) : Z * Z := (case_id r, track_id r).

(** The function mapped over the [agent_type] column; the decoded member
    replaces the cell. *)
Definition decode_agent_type (r : Row K) : result (Row K) :=
  a ← deserialize (agent_type r);
  Ok (mkRow (case_id r) (track_id r) (timestamp_ms r) (Decoded a)
        (kinematics r) (tracks_to_predict r) (interesting_agent r)).

(** [groupby(["case_id", "track_id"]).agg(...)] of the train/val branch: one
    row per key in increasing key order, each aggregating the rows of its
    group in table order. *)
Definition groupby_track_agg (df : list (Row K))
    : list ((Z * Z) * TrackAgg) :=
  omap
    (fun k =>
       let g := filter (fun r => row_key r = k) df in
       mn ← series_min (map timestamp_ms g);
       mx ← series_max (map timestamp_ms g);
       ty ← series_first (map agent_type g);
       Some (k, mkTrackAgg mn mx ty))
    (merge_sort key_le (unique (map row_key df))).

(** [column == AgentType.CAR.value] on one cell: a member of the integer
    enumeration equals its value, a string equals no integer. *)
Definition cell_eq_int (c : agent_cell) (v : Z) : bool :=
  match c with
  | Decoded a => bool_decide (AgentType_value a = v)
  | Raw _ => false
  end.

Definition is_track_to_predict (ka : (Z * Z) * TrackAgg) : Prop :=
  min_timestamp ka.2 = 100 /\ max_timestamp ka.2 = 4000 /\
  cell_eq_int (agg_agent_type ka.2) (AgentType_value CAR) = true.

Local Instance is_track_to_predict_dec ka : Decision (is_track_to_predict ka).
Proof. unfold is_track_to_predict. apply _. Defined.

Definition _init_scenario (root : Path) (loc split : string)
    : result INTERACTIONScenario :=
  raw ← read_csv (track_file_of root loc split);
  motion_state_df ← apply_each decode_agent_type raw;
  let n := Z.of_nat (length (unique (map case_id motion_state_df))) in
  indices ←
    (if decide (split = "test") then
       let to_predict :=
         filter (fun r => tracks_to_predict r = 1) motion_state_df in
       d1 ← dict_to_dict
              (groupby_case_id unique (map row_key to_predict));
       let interesting :=
         filter (fun r => interesting_agent r = 1) motion_state_df in
       d2 ← dict_to_dict
              (groupby_case_id unique (map row_key interesting));
       Ok (d1, d2)
     else
       let to_predict :=
         filter is_track_to_predict (groupby_track_agg motion_state_df) in
       Ok (groupby_case_id (fun x => x) (map fst to_predict),
           list_to_map
             (map (fun c => (c, [])) (unique (map case_id motion_state_df)))));
  Ok (mkScenario loc root motion_state_df split indices.1 indices.2 n).

(** The branch of [__init__] that runs when no split is given. *)
Definition dereference_split (root : string) (root_path : Path)
    : result string :=
  match last (Path_parts root_path) with
  | None => Raise (IndexError "tuple index out of range")
  | Some split =>
      if contains "train" split then Ok "train"
      else if contains "val" split then Ok "val"
      else if contains "test" split then Ok "test"
      else Raise (ValueError
                    ("Unable to dereference split from " +:+ root +:+ "."))
  end.

Definition __init__ (root loc : string) (split : option string)
    : result INTERACTIONScenario :=
  let root_path := Path_resolve root in
  resolved ←
    match split with
    | Some s => Ok s
    | None => dereference_split root root_path
    end;
  if decide (resolved ∈ ["train"; "val"; "test"]) then
    _init_scenario root_path loc resolved
  else Raise (AssertionError ("Invalid split " +:+ resolved +:+ ".")).

(** *** The track layer *)

(** One row of the track layer: the index levels and the two columns that
    construction keeps. *)
Record TrackSummary : Type := mkTrackSummary {
  ts_case_id : Z;
  ts_track_id : Z;
  ts_timestamp_ms : Z;
  ts_agent_type : agent_cell
}.

Definition summary_key (s : TrackSummary) : Z * Z :=
  (ts_case_id s, ts_track_id s).

(** The order of [sort_values(["case_id", "track_id", "timestamp_ms"])]. *)
Definition sort_le (r1 r2 : Row K) : Prop :=
  case_id r1 < case_id r2 \/
  (case_id r1 = case_id r2 /\
   (track_id r1 < track_id r2 \/
    (track_id r1 = track_id r2 /\ timestamp_ms r1 <= timestamp_ms r2))).

Local Instance sort_le_dec : RelDecision sort_le.
Proof. intros r1 r2. unfold sort_le. apply _. Defined.

(** The sort on several columns is a stable lexicographic sort: rows that
    agree on the three columns keep their table order. *)
Fixpoint sort_insert (r : Row K) (l : list (Row K)) : list (Row K) :=
  match l with
  | [] => [r]
  | y :: l' =>
      if decide (sort_le r y) then r :: y :: l' else y :: sort_insert r l'
  end.

Definition sort_values (df : list (Row K)) : list (Row K) :=
  foldr sort_insert [] df.

(** The table stored under [INTERACTIONScenarioLayers.TRACK], from the
    decoded table: the four columns sorted, grouped by (case_id, track_id),
    and the first row of every group. *)
Definition track_df (motion_state_df : list (Row K)) : list TrackSummary :=
  let sorted := sort_values motion_state_df in
  omap
    (fun k =>
       r ← head (filter (fun r => row_key r = k) sorted);
       Some (mkTrackSummary k.1 k.2 (timestamp_ms r) (agent_type r)))
    (merge_sort key_le (unique (map row_key sorted))).

(** *** Vocabulary of the statements *)

(** The motion state the loop builds from one row. *)
Definition to_motion_state (r : Row K) : MotionState K :=
  mkMotionState (track_id r) (timestamp_ms r) (kinematics r).

(** The rows of one track, in frame order. *)
Definition rows_of_track (t : Z) (frame : TrackFrame K) : TrackFrame K :=
  filter (fun r => track_id r = t) frame.

(** The agent type a row decodes to, if it decodes. *)
Definition row_type (r : Row K) : option AgentType :=
  match deserialize (agent_type r) with
  | Ok a => Some a
  | Raise _ => None
  end.

(** The invariant of a track: one agent id throughout, timestamps strictly
    increasing. *)
Definition track_invariant (t : Track K) : Prop :=
  Forall (fun ms => ms_agent_id ms = agent_id t) (motion_states t) /\
  StronglySorted Z.lt (map ms_timestamp_ms (motion_states t)).

(** What the decoding pass does to one row. *)
Definition decoded_from (r d : Row K) : Prop :=
  exists a, deserialize (agent_type r) = Ok a /\
    d = mkRow (case_id r) (track_id r) (timestamp_ms r) (Decoded a)
          (kinematics r) (tracks_to_predict r) (interesting_agent r).

(** The two indices that the train/val branch stores. *)
Definition train_val_to_predict (df : list (Row K)) : gmap Z (list Z) :=
  groupby_case_id (fun x => x)
    (map fst (filter is_track_to_predict (groupby_track_agg df))).

Definition train_val_interesting (df : list (Row K)) : gmap Z (list Z) :=
  list_to_map (map (fun c => (c, [])) (unique (map case_id df))).

(** The least and the greatest value of a column. *)
Definition is_minimum (m : Z) (l : list Z) : Prop :=
  m ∈ l /\ Forall (fun x => m <= x) l.

Definition is_maximum (m : Z) (l : list Z) : Prop :=
  m ∈ l /\ Forall (fun x => x <= m) l.

(** The rows of one (case_id, track_id) group, in table order. *)
Definition track_group (df : list (Row K)) (c t : Z) : list (Row K) :=
  filter (fun r => row_key r = (c, t)) df.

(** The train/val rule on the rows read from the file: the track is seen
    first at 100 and last at 4000, and its first row decodes to a car. *)
Definition spans_as_car (raw : list (Row K)) (c t : Z) : Prop :=
  is_minimum 100 (map timestamp_ms (track_group raw c t)) /\
  is_maximum 4000 (map timestamp_ms (track_group raw c t)) /\
  exists r, head (track_group raw c t) = Some r /\
            deserialize (agent_type r) = Ok CAR.

(** The same rule with the group picked by its two columns: the rows of
    case [c] and track [t], in table order. *)
Definition to_be_predicted (raw : list (Row K)) (c t : Z) : Prop :=
  let group := filter (fun r => case_id r = c /\ track_id r = t) raw in
  is_minimum 100 (map timestamp_ms group) /\
  is_maximum 4000 (map timestamp_ms group) /\
  exists r, head group = Some r /\ deserialize (agent_type r) = Ok CAR.

(** The weaker order of a track: one agent id throughout, timestamps that
    never decrease. *)
Definition track_ordered (t : Track K) : Prop :=
  Forall (fun ms => ms_agent_id ms = agent_id t) (motion_states t) /\
  StronglySorted Z.le (map ms_timestamp_ms (motion_states t)).

(** No two rows of one track carry the same timestamp. *)
Definition no_repeated_state (rows : TrackFrame K) : Prop :=
  NoDup (map (fun r => (track_id r, timestamp_ms r)) rows).

(** What the statements assume of [tracks/typing.py]: the members carry
    distinct integer values, and a cell that already holds a member decodes
    to that member (the column is decoded at construction and once more by
    [get_tracks_from_frame]). *)
Definition value_injective : Prop :=
  forall a b, AgentType_value a = AgentType_value b -> a = b.

Definition decoded_cells_decode : Prop :=
  forall a, deserialize (Decoded a) = Ok a.

(** ** Properties *)

(** One step of the error monad. *)
Tactic Notation "step" := cbn [mbind result_bind].
Tactic Notation "step" "in" hyp(H) := cbn [mbind result_bind] in H.

(** *** Tables *)

Lemma elem_of_unique {A : Type} `{EqDecision A} (l : list A) (x : A) :
  x ∈ unique l <-> x ∈ l.
Proof.
  induction l as [|a l IH]; simpl; [done|].
  rewrite !elem_of_cons, list_elem_of_filter, IH.
  destruct (decide (x = a)); tauto.
Qed.

Lemma NoDup_unique {A : Type} `{EqDecision A} (l : list A) :
  NoDup (unique l).
Proof.
  induction l as [|a l IH]; simpl; [constructor|].
  constructor; [|by apply NoDup_filter].
  rewrite list_elem_of_filter. tauto.
Qed.

Lemma loc_case_Ok (df : TrackFrame K) (c : Z) :
  c ∈ map case_id df ->
  loc_case df c = Ok (filter (fun r => case_id r = c) df).
Proof.
  intros Hc. unfold loc_case.
  destruct (filter (fun r => case_id r = c) df) as [|r rows] eqn:E; [|done].
  apply list_elem_of_fmap in Hc as (r & -> & Hr).
  assert (r ∈ filter (fun r' => case_id r' = case_id r) df) as Hin
    by (by apply list_elem_of_filter).
  rewrite E in Hin. by apply elem_of_nil in Hin.
Qed.

Lemma loc_case_Raise (df : TrackFrame K) (c : Z) :
  c ∉ map case_id df -> loc_case df c = Raise (KeyError c).
Proof.
  intros Hc. unfold loc_case.
  destruct (filter (fun r => case_id r = c) df) as [|r rows] eqn:E; [done|].
  exfalso. apply Hc.
  assert (r ∈ filter (fun r => case_id r = c) df) as Hr
    by (rewrite E; left).
  apply list_elem_of_filter in Hr as [<- Hr].
  apply list_elem_of_fmap. eauto.
Qed.

(** *** Time windows *)

Lemma windows_Permutation (rows : TrackFrame K) :
  filter (fun r => timestamp_ms r <> 1000)
    (filter (fun r => timestamp_ms r <= 1000) rows)
  ++ filter (fun r => timestamp_ms r = 1000) rows
  ++ filter (fun r => timestamp_ms r > 1000) rows ≡ₚ rows.
Proof.
  induction rows as [|r rows IH]; [done|].
  rewrite !filter_cons.
  destruct (decide (timestamp_ms r <= 1000)),
    (decide (timestamp_ms r = 1000)), (decide (timestamp_ms r > 1000));
    try lia; rewrite ?filter_cons; repeat case_decide; try lia; simpl.
  - rewrite <- Permutation_middle. by constructor.
  - by constructor.
  - rewrite (assoc (++)), <- Permutation_middle, <- (assoc (++)).
    by constructor.
Qed.

Lemma current_sublist_history (rows : TrackFrame K) :
  filter (fun r => timestamp_ms r = 1000) rows
    `sublist_of` filter (fun r => timestamp_ms r <= 1000) rows.
Proof.
  induction rows as [|r rows IH]; [done|].
  rewrite !filter_cons. repeat case_decide; try lia.
  - by constructor.
  - by apply sublist_cons.
  - done.
Qed.

(** C3: for a case id of the motion-state layer the three windows are the
    case's rows with timestamp at most 1000, equal to 1000 and above 1000,
    each in table order; the current window lies inside the history window,
    and history without the rows at 1000, current and future together hold
    every row of the case exactly once. *)
Theorem time_windows_partition (self : INTERACTIONScenario) (c : Z) :
  c ∈ map case_id (_frames self) ->
  exists rows history current futural,
    loc_case (_frames self) c = Ok rows /\
    (forall r, r ∈ rows <-> r ∈ _frames self /\ case_id r = c) /\
    _get_history self c = Ok history /\
    _get_current self c = Ok current /\
    _get_futural self c = Ok futural /\
    history `sublist_of` rows /\
    current `sublist_of` rows /\
    futural `sublist_of` rows /\
    (forall r, r ∈ history <-> r ∈ rows /\ timestamp_ms r <= 1000) /\
    (forall r, r ∈ current <-> r ∈ rows /\ timestamp_ms r = 1000) /\
    (forall r, r ∈ futural <-> r ∈ rows /\ timestamp_ms r > 1000) /\
    current `sublist_of` history /\
    (forall r, r ∈ rows -> timestamp_ms r = 1000 ->
       r ∈ history /\ r ∈ current) /\
    filter (fun r => timestamp_ms r <> 1000) history ++ current ++ futural
      ≡ₚ rows.
Proof.
  intros Hc.
  exists (filter (fun r => case_id r = c) (_frames self)).
  eexists _, _, _.
  unfold _get_history, _get_current, _get_futural.
  rewrite (loc_case_Ok _ _ Hc). simpl.
  split_and!; try reflexivity; try apply sublist_filter;
    try (intros r; rewrite !list_elem_of_filter; tauto).
  - apply current_sublist_history.
  - intros r Hr Ht. rewrite !list_elem_of_filter.
    apply list_elem_of_filter in Hr. split; (split; [lia|tauto]).
  - apply windows_Permutation.
Qed.

(** *** Reshaping a frame into tracks *)

Lemma for_each_snoc {A S : Type} (body : S -> A -> result S)
    (xs : list A) (x : A) (acc : S) :
  for_each body (xs ++ [x]) acc = for_each body xs acc ≫= fun a => body a x.
Proof.
  revert acc. induction xs as [|y xs IH]; intros acc; simpl.
  - by destruct (body acc x).
  - destruct (body acc y); simpl; [apply IH|done].
Qed.

Lemma unique_snoc {A : Type} `{EqDecision A} (l : list A) (x : A) :
  unique (l ++ [x]) = if decide (x ∈ l) then unique l else unique l ++ [x].
Proof.
  induction l as [|a l IH]; cbn [unique app].
  - rewrite decide_False; [done|apply not_elem_of_nil].
  - rewrite IH. destruct (decide (x ∈ l)) as [Hin|Hin].
    + rewrite decide_True; [done|by right].
    + rewrite filter_app, filter_cons, filter_nil.
      destruct (decide (x = a)) as [->|Hne].
      * rewrite decide_False by tauto.
        rewrite decide_True by left. by rewrite app_nil_r.
      * rewrite decide_True by done.
        rewrite decide_False; [done|].
        rewrite elem_of_cons. tauto.
Qed.

Lemma defaultdict_append_keys {V : Type} (d : list (Z * list V)) k v :
  map fst (defaultdict_append d k v)
  = if decide (k ∈ map fst d) then map fst d else map fst d ++ [k].
Proof.
  induction d as [|[k' vs] d IH]; cbn [defaultdict_append map fst].
  - rewrite decide_False; [done|apply not_elem_of_nil].
  - destruct (decide (k' = k)) as [->|Hne]; cbn [map fst].
    + rewrite decide_True; [done|left].
    + rewrite IH. destruct (decide (k ∈ map fst d)) as [Hin|Hin].
      * rewrite decide_True; [done|by right].
      * rewrite decide_False; [done|].
        rewrite elem_of_cons. intros [->|]; tauto.
Qed.

Lemma defaultdict_append_Forall {V : Type} (P Q : Z * list V -> Prop)
    (d : list (Z * list V)) k v :
  NoDup (map fst d) ->
  (forall kv, kv ∈ d -> kv.1 <> k -> P kv -> Q kv) ->
  (forall vs, (k, vs) ∈ d -> P (k, vs) -> Q (k, vs ++ [v])) ->
  (k ∉ map fst d -> Q (k, [v])) ->
  Forall P d -> Forall Q (defaultdict_append d k v).
Proof.
  intros Hnd Hother Hsame Hnew HP.
  induction d as [|[k' vs] d IH]; simpl.
  - constructor; [|constructor]. apply Hnew, not_elem_of_nil.
  - apply Forall_cons in HP as [HP1 HP].
    simpl in Hnd. apply NoDup_cons in Hnd as [Hk' Hnd].
    destruct (decide (k' = k)) as [->|Hne].
    + constructor; [apply Hsame; [left|done]|].
      apply Forall_forall. intros kv Hkv.
      apply Hother; [by right| |by eapply Forall_forall in HP].
      intros <-. apply Hk', list_elem_of_fmap. by exists kv.
    + constructor; [apply Hother; [left|done..]|].
      apply IH; try done.
      * intros kv Hkv. apply Hother. by right.
      * intros vs' Hin. apply Hsame. by right.
      * intros Hnin. apply Hnew. simpl. rewrite elem_of_cons.
        intros [->|]; tauto.
Qed.

Lemma rows_of_track_snoc (t : Z) (frame : TrackFrame K) (r : Row K) :
  rows_of_track t (frame ++ [r])
  = rows_of_track t frame ++ (if decide (track_id r = t) then [r] else []).
Proof.
  unfold rows_of_track. rewrite filter_app, filter_cons, filter_nil.
  by destruct (decide (track_id r = t)).
Qed.

Lemma rows_of_track_nil (t : Z) (frame : TrackFrame K) :
  t ∉ map track_id frame -> rows_of_track t frame = [].
Proof.
  intros Ht. unfold rows_of_track.
  induction frame as [|r frame IH]; [done|].
  rewrite filter_cons. simpl in Ht. rewrite elem_of_cons in Ht.
  rewrite decide_False by (intros E; apply Ht; by left).
  apply IH. tauto.
Qed.

Lemma rows_of_track_last (t : Z) (frame : TrackFrame K) :
  t ∈ map track_id frame ->
  exists r, last (rows_of_track t frame) = Some r /\ r ∈ frame /\ track_id r = t.
Proof.
  intros Ht. apply list_elem_of_fmap in Ht as (r0 & -> & Hr0).
  destruct (last (rows_of_track (track_id r0) frame)) as [r|] eqn:E.
  - exists r. split; [done|].
    apply last_Some_elem_of, list_elem_of_filter in E. tauto.
  - apply last_None in E.
    assert (r0 ∈ rows_of_track (track_id r0) frame) as Hin
      by (by apply list_elem_of_filter).
    rewrite E in Hin. by apply elem_of_nil in Hin.
Qed.

Lemma tracks_loop_inv (frame : TrackFrame K) acc :
  for_each tracks_loop_body frame ([], ∅) = Ok acc ->
  map fst acc.1 = unique (map track_id frame) /\
  Forall (fun kv => kv.2 = map to_motion_state (rows_of_track kv.1 frame))
    acc.1 /\
  (forall k, acc.2 !! k = last (rows_of_track k frame) ≫= row_type) /\
  Forall (fun r => is_Some (row_type r)) frame.
Proof.
  revert acc. induction frame as [|r frame IH] using rev_ind; intros acc.
  - intros [= <-]. split_and!; try done.
  - rewrite for_each_snoc.
    destruct (for_each tracks_loop_body frame ([], ∅)) as [acc0|e] eqn:E;
      [|done].
    step. unfold tracks_loop_body.
    destruct (deserialize (agent_type r)) as [ty|e] eqn:D; [|done].
    step. intros [= <-].
    destruct (IH acc0 eq_refl) as (Hk & Hv & Ht & Hd). cbn [fst snd].
    split_and!.
    + rewrite defaultdict_append_keys, Hk, map_app. cbn [map].
      rewrite unique_snoc. destruct (decide (track_id r ∈ map track_id frame)).
      * rewrite decide_True; [done|by apply elem_of_unique].
      * rewrite decide_False; [done|by rewrite elem_of_unique].
    + eapply defaultdict_append_Forall; [| | | |exact Hv].
      * rewrite Hk. apply NoDup_unique.
      * intros kv _ Hne ->. rewrite rows_of_track_snoc.
        rewrite decide_False by done. by rewrite app_nil_r.
      * intros vs _. cbn [fst snd]. intros ->.
        rewrite rows_of_track_snoc, decide_True by done.
        by rewrite map_app.
      * rewrite Hk, elem_of_unique. intros Hnew. cbn [fst snd].
        rewrite rows_of_track_snoc, decide_True by done.
        by rewrite (rows_of_track_nil _ _ Hnew).
    + intros k. rewrite rows_of_track_snoc.
      destruct (decide (track_id r = k)) as [<-|Hne].
      * rewrite lookup_insert_eq, last_snoc. cbn [mbind option_bind].
        unfold row_type. by rewrite D.
      * rewrite lookup_insert_ne, app_nil_r by done. apply Ht.
    + apply Forall_app. split; [done|].
      constructor; [|constructor]. unfold row_type. by rewrite D.
Qed.

Lemma apply_each_Forall2 {A B : Type} (f : A -> result B) xs ys :
  apply_each f xs = Ok ys -> Forall2 (fun x y => f x = Ok y) xs ys.
Proof.
  revert ys. induction xs as [|x xs IH]; intros ys; simpl.
  - intros [= <-]. constructor.
  - destruct (f x) as [y|e] eqn:E; [|done]. step.
    destruct (apply_each f xs) as [ys'|e]; [|done].
    step. intros [= <-]. constructor; auto.
Qed.

Lemma apply_each_total {A B : Type} (f : A -> result B) xs :
  Forall (fun x => exists y, f x = Ok y) xs ->
  exists ys, apply_each f xs = Ok ys.
Proof.
  induction 1 as [|x xs [y Hy] _ [ys Hys]]; simpl; [by eexists|].
  rewrite Hy. step. rewrite Hys. by eexists.
Qed.

Lemma tracks_loop_total (frame : TrackFrame K) acc :
  Forall (fun r => is_Some (row_type r)) frame ->
  exists acc', for_each tracks_loop_body frame acc = Ok acc'.
Proof.
  intros Hd. revert acc.
  induction Hd as [|r frame [ty Hr] _ IH]; intros acc;
    cbn [for_each]; [by eexists|].
  assert (exists acc1, tracks_loop_body acc r = Ok acc1) as [acc1 ->].
  { unfold tracks_loop_body. unfold row_type in Hr.
    destruct (deserialize (agent_type r)); [by eexists|done]. }
  step. apply IH.
Qed.

Lemma dict_getitem_Ok {V : Type} (d : gmap Z V) k v :
  dict_getitem d k = Ok v <-> d !! k = Some v.
Proof.
  unfold dict_getitem. destruct (d !! k); split; intros; simplify_eq; done.
Qed.

Lemma dict_getitem_Raise {V : Type} (d : gmap Z V) k :
  d !! k = None -> dict_getitem d k = Raise (KeyError k).
Proof. unfold dict_getitem. by intros ->. Qed.

Lemma get_tracks_from_frame_Ok (frame : TrackFrame K) tracks :
  get_tracks_from_frame frame = Ok tracks ->
  map agent_id tracks = unique (map track_id frame) /\
  Forall (fun t =>
            motion_states t
            = map to_motion_state (rows_of_track (agent_id t) frame) /\
            last (rows_of_track (agent_id t) frame) ≫= row_type
            = Some (type t)) tracks.
Proof.
  unfold get_tracks_from_frame.
  destruct (for_each tracks_loop_body frame ([], ∅)) as [acc|e] eqn:E;
    [|done].
  step. intros Happ.
  destruct (tracks_loop_inv _ _ E) as (Hk & Hv & Ht & _).
  rewrite <- Hk. apply apply_each_Forall2 in Happ.
  clear Hk E. induction Happ as [|kv t kvs ts Hkt _ IH]; [done|].
  apply Forall_cons in Hv as [Hkv Hv]. destruct (IH Hv) as [IH1 IH2].
  destruct (dict_getitem acc.2 kv.1) as [ty|e] eqn:G; [|done].
  step in Hkt. injection Hkt as <-.
  apply dict_getitem_Ok in G. cbn [map agent_id type motion_states].
  split; [by f_equal|]. constructor; [|done].
  cbn [agent_id type motion_states]. by rewrite <- Ht.
Qed.

Lemma get_tracks_from_frame_total (frame : TrackFrame K) :
  Forall (fun r => is_Some (row_type r)) frame ->
  exists tracks, get_tracks_from_frame frame = Ok tracks.
Proof.
  intros Hd. unfold get_tracks_from_frame.
  destruct (tracks_loop_total frame ([], ∅) Hd) as [acc E]. rewrite E.
  step.
  destruct (tracks_loop_inv _ _ E) as (Hk & _ & Ht & _).
  apply apply_each_total, Forall_forall. intros kv Hkv.
  assert (kv.1 ∈ map track_id frame) as Hin.
  { apply elem_of_unique. rewrite <- Hk. apply list_elem_of_fmap. eauto. }
  apply rows_of_track_last in Hin as (r & Hlast & Hr & _).
  eapply Forall_forall in Hd as [ty Hty]; [|exact Hr].
  exists (mkTrack kv.1 ty kv.2).
  assert (acc.2 !! kv.1 = Some ty) as G by (by rewrite Ht, Hlast).
  apply dict_getitem_Ok in G. by rewrite G.
Qed.

(** C2 (as the code has it): when every row decodes, the reshape returns
    one track per distinct track id, in order of first appearance; a
    track's motion states are its rows in frame order; its agent type is
    the one decoded from the LAST of its rows, since the loop overwrites
    the stored type at every row.  The empty frame gives the empty list. *)
Theorem get_tracks_from_frame_reshape (frame : TrackFrame K) :
  Forall (fun r => is_Some (row_type r)) frame ->
  get_tracks_from_frame [] = Ok [] /\
  exists tracks,
    get_tracks_from_frame frame = Ok tracks /\
    map agent_id tracks = unique (map track_id frame) /\
    NoDup (map agent_id tracks) /\
    (forall t, t ∈ map agent_id tracks <-> t ∈ map track_id frame) /\
    forall tr, tr ∈ tracks ->
      motion_states tr
      = map to_motion_state (rows_of_track (agent_id tr) frame) /\
      exists r, last (rows_of_track (agent_id tr) frame) = Some r /\
                deserialize (agent_type r) = Ok (type tr).
Proof.
  intros Hd. split; [done|].
  destruct (get_tracks_from_frame_total frame Hd) as [tracks Htr].
  exists tracks. split; [done|].
  destruct (get_tracks_from_frame_Ok _ _ Htr) as [Hids Hall].
  split_and!; [done|rewrite Hids; apply NoDup_unique| |].
  - intros t. by rewrite Hids, elem_of_unique.
  - intros tr Hin. eapply Forall_forall in Hall as [Hms Hty]; [|exact Hin].
    split; [done|].
    destruct (last (rows_of_track (agent_id tr) frame)) as [r|]; [|done].
    exists r. split; [done|]. cbn [mbind option_bind] in Hty.
    unfold row_type in Hty. by destruct (deserialize (agent_type r)) as [a|];
      simplify_eq.
Qed.

(** *** The track invariant *)

Lemma loc_case_inv (df : TrackFrame K) (c : Z) rows :
  loc_case df c = Ok rows -> rows = filter (fun r => case_id r = c) df.
Proof.
  unfold loc_case.
  destruct (filter (fun r => case_id r = c) df); intros; by simplify_eq.
Qed.

Lemma get_case_Ok (self : INTERACTIONScenario) (c : Z) case :
  get_case self c = Ok case ->
  let rows := filter (fun r => case_id r = c) (_frames self) in
  get_tracks_from_frame (filter (fun r => timestamp_ms r <= 1000) rows)
  = Ok (ic_history_tracks case) /\
  get_tracks_from_frame (filter (fun r => timestamp_ms r = 1000) rows)
  = Ok (ic_current_tracks case) /\
  get_tracks_from_frame (filter (fun r => timestamp_ms r > 1000) rows)
  = Ok (ic_futural_tracks case) /\
  _tracks_to_predict self !! c = Some (ic_tracks_to_predict case) /\
  _interesting_agents self !! c = Some (ic_interesting_agents case) /\
  ic_location case = _location self /\ ic_case_id case = c.
Proof.
  unfold get_case, _get_history, _get_current, _get_futural.
  destruct (loc_case (_frames self) c) as [rows|e] eqn:E; [|done].
  apply loc_case_inv in E as ->. step.
  destruct (get_tracks_from_frame (filter (fun r => timestamp_ms r <= 1000) _))
    as [h|]; [|done]. step.
  destruct (get_tracks_from_frame (filter (fun r => timestamp_ms r = 1000) _))
    as [cu|]; [|done]. step.
  destruct (get_tracks_from_frame (filter (fun r => timestamp_ms r > 1000) _))
    as [fu|]; [|done]. step.
  destruct (dict_getitem (_tracks_to_predict self) c) as [tp|] eqn:E1;
    [|done]. step.
  destruct (dict_getitem (_interesting_agents self) c) as [ia|] eqn:E2;
    [|done]. step.
  apply dict_getitem_Ok in E1, E2. intros [= <-]. by cbn.
Qed.

Lemma StronglySorted_map_filter {A : Type} (f : A -> Z) (P : A -> Prop)
    `{forall x, Decision (P x)} (l : list A) :
  StronglySorted Z.lt (map f l) -> StronglySorted Z.lt (map f (filter P l)).
Proof.
  induction l as [|x l IH]; [done|]. cbn [map].
  rewrite StronglySorted_cons. intros [Hx Hl].
  rewrite filter_cons. destruct (decide (P x)); [|by apply IH].
  cbn [map]. apply StronglySorted_cons. split; [|by apply IH].
  rewrite Forall_forall in *. intros y Hy. apply Hx.
  apply list_elem_of_fmap in Hy as (a & -> & Ha).
  apply list_elem_of_filter in Ha as [_ Ha].
  apply list_elem_of_fmap. eauto.
Qed.

Lemma rows_of_track_filter (P : Row K -> Prop) `{forall r, Decision (P r)}
    (t : Z) (rows : TrackFrame K) :
  rows_of_track t (filter P rows) = filter P (rows_of_track t rows).
Proof.
  unfold rows_of_track. rewrite !list_filter_filter.
  apply list_filter_iff. tauto.
Qed.

Lemma frame_tracks_invariant_per_track (frame : TrackFrame K) tracks :
  (forall t, StronglySorted Z.lt (map timestamp_ms (rows_of_track t frame))) ->
  get_tracks_from_frame frame = Ok tracks ->
  Forall track_invariant tracks.
Proof.
  intros Hs Htr. apply get_tracks_from_frame_Ok in Htr as [_ Hall].
  eapply Forall_impl; [exact Hall|]. intros tr [Hms _].
  unfold track_invariant. rewrite Hms. split.
  - apply Forall_forall. intros ms Hin.
    apply list_elem_of_fmap in Hin as (r & -> & Hr).
    by apply list_elem_of_filter in Hr as [Hr _].
  - rewrite <- list_fmap_compose. apply Hs.
Qed.

Lemma frame_tracks_invariant (frame : TrackFrame K) tracks :
  StronglySorted Z.lt (map timestamp_ms frame) ->
  get_tracks_from_frame frame = Ok tracks ->
  Forall track_invariant tracks.
Proof.
  intros Hs. apply frame_tracks_invariant_per_track. intros t.
  by apply (StronglySorted_map_filter timestamp_ms).
Qed.

(** X1: the order that suffices for the timestamps of C8: within the case,
    the rows of each track come in strictly increasing timestamp order (the
    tracks of a case may share their timestamps).  Then every track of the
    case served by [get_case] satisfies the track invariant. *)
Theorem per_track_order_suffices (self : INTERACTIONScenario) (c : Z) :
  (forall t,
     StronglySorted Z.lt
       (map timestamp_ms
          (rows_of_track t
             (filter (fun r => case_id r = c) (_frames self))))) ->
  forall case,
    get_case self c = Ok case ->
    Forall track_invariant (ic_history_tracks case) /\
    Forall track_invariant (ic_current_tracks case) /\
    Forall track_invariant (ic_futural_tracks case).
Proof.
  intros Hs case Hg. apply get_case_Ok in Hg as (Hh & Hc & Hf & _).
  split_and!;
    (eapply frame_tracks_invariant_per_track; [|eassumption]);
    intros t; rewrite rows_of_track_filter;
    by apply (StronglySorted_map_filter timestamp_ms).
Qed.

(** *** Construction *)

Lemma decode_table raw df :
  apply_each decode_agent_type raw = Ok df -> Forall2 decoded_from raw df.
Proof.
  intros H. apply apply_each_Forall2 in H.
  eapply Forall2_impl; [exact H|]. intros r d. unfold decode_agent_type.
  destruct (deserialize (agent_type r)) as [a|] eqn:E; [|done].
  step. intros [= <-]. by exists a.
Qed.

Lemma decode_table_case_id raw df :
  Forall2 decoded_from raw df -> map case_id df = map case_id raw.
Proof.
  induction 1 as [|r d raw df (a & _ & ->) _ IH]; [done|].
  cbn [map case_id]. by rewrite IH.
Qed.

Lemma init_scenario_test root loc raw df :
  read_csv (track_file_of root loc "test") = Ok raw ->
  apply_each decode_agent_type raw = Ok df ->
  _init_scenario root loc "test"
  = Raise (AttributeError "'dict' object has no attribute 'to_dict'").
Proof.
  intros Hraw Hdf. unfold _init_scenario.
  rewrite Hraw. step.
  rewrite Hdf. step. by rewrite decide_True by done.
Qed.

Lemma init_scenario_test_fails root loc self :
  _init_scenario root loc "test" <> Ok self.
Proof.
  destruct (read_csv (track_file_of root loc "test")) as [raw|e] eqn:Hraw.
  - destruct (apply_each decode_agent_type raw) as [df|e] eqn:Hdf.
    + by rewrite (init_scenario_test _ _ _ _ Hraw Hdf).
    + unfold _init_scenario. rewrite Hraw. step.
      by rewrite Hdf.
  - unfold _init_scenario. by rewrite Hraw.
Qed.

Lemma init_scenario_Ok root loc split self :
  _init_scenario root loc split = Ok self ->
  split <> "test" /\
  exists raw df,
    read_csv (track_file_of root loc split) = Ok raw /\
    apply_each decode_agent_type raw = Ok df /\
    self = mkScenario loc root df split (train_val_to_predict df)
             (train_val_interesting df)
             (Z.of_nat (length (unique (map case_id df)))).
Proof.
  intros H. destruct (decide (split = "test")) as [->|Hne].
  { by apply init_scenario_test_fails in H. }
  split; [done|]. unfold _init_scenario in H.
  destruct (read_csv _) as [raw|e]; [|done]. step in H.
  destruct (apply_each decode_agent_type raw) as [df|e] eqn:D; [|done].
  step in H. rewrite decide_False in H by done.
  cbn [mbind result_bind fst snd] in H. injection H as <-.
  by exists raw, df.
Qed.

Lemma init_Ok root loc split self :
  __init__ root loc split = Ok self ->
  exists resolved,
    match split with
    | Some s => resolved = s
    | None => dereference_split root (Path_resolve root) = Ok resolved
    end /\
    resolved ∈ ["train"; "val"; "test"] /\
    _init_scenario (Path_resolve root) loc resolved = Ok self.
Proof.
  unfold __init__. intros H.
  destruct split as [s|].
  - step in H. exists s.
    destruct (decide (s ∈ ["train"; "val"; "test"])); [done|discriminate].
  - destruct (dereference_split root (Path_resolve root)) as [s|e];
      [|discriminate].
    step in H. exists s.
    destruct (decide (s ∈ ["train"; "val"; "test"])); [done|discriminate].
Qed.

Lemma init_Ok_slots root loc split self :
  __init__ root loc split = Ok self ->
  _root self = Path_resolve root /\ _location self = loc /\
  _split self ∈ ["train"; "val"; "test"] /\ _split self <> "test" /\
  match split with
  | Some s => _split self = s
  | None => dereference_split root (Path_resolve root) = Ok (_split self)
  end /\
  exists raw,
    read_csv (track_file self) = Ok raw /\
    apply_each decode_agent_type raw = Ok (_frames self) /\
    _tracks_to_predict self = train_val_to_predict (_frames self) /\
    _interesting_agents self = train_val_interesting (_frames self) /\
    _num_cases self
    = Z.of_nat (length (unique (map case_id (_frames self)))).
Proof.
  intros H. apply init_Ok in H as (resolved & Hres & Hin & H).
  apply init_scenario_Ok in H as (Hne & raw & df & Hraw & Hdf & ->).
  cbn [_root _location _split _frames _tracks_to_predict
         _interesting_agents _num_cases].
  split_and!; try done.
  by exists raw.
Qed.

(** C9: [track_file] is the root joined with [{location}_obs.csv] for the
    test split and with [{location}_{split}.csv] otherwise; construction
    reads the table from that path, under the resolved root and the given
    location. *)
Theorem track_file_path (self : INTERACTIONScenario) :
  (_split self = "test" ->
     track_file self
     = Path_str (Path_joinpath (_root self) (_location self +:+ "_obs.csv")))
  /\
  (_split self <> "test" ->
     track_file self
     = Path_str (Path_joinpath (_root self)
                   (_location self +:+ "_" +:+ _split self +:+ ".csv")))
  /\
  (forall root loc split,
     __init__ root loc split = Ok self ->
     _root self = Path_resolve root /\ _location self = loc /\
     exists raw, read_csv (track_file self) = Ok raw)
  /\
  (forall root loc e,
     read_csv (Path_str (Path_joinpath (Path_resolve root)
                           (loc +:+ "_obs.csv"))) = Raise e ->
     __init__ root loc (Some "test") = Raise e).
Proof.
  unfold track_file, track_file_of. split_and!.
  - intros ->. by rewrite decide_True.
  - intros Hne. by rewrite decide_False.
  - intros root loc split H.
    apply init_Ok_slots in H as (? & ? & _ & _ & _ & raw & ? & _).
    split_and!; [done..|]. by exists raw.
  - intros root loc e He. unfold __init__. step.
    rewrite decide_True by (rewrite !elem_of_cons; tauto).
    unfold _init_scenario, track_file_of. rewrite decide_True by done.
    by rewrite He.
Qed.

(** C7: indexing is [get_case], the length is [num_cases], and for a
    constructed scenario [num_cases] is the number of distinct case ids of
    the table read from the track file. *)
Theorem indexing_and_length (root loc : string) (split : option string)
    (self : INTERACTIONScenario) :
  __init__ root loc split = Ok self ->
  (forall c, __getitem__ self c = get_case self c) /\
  __len__ self = num_cases self /\
  exists raw,
    read_csv (track_file self) = Ok raw /\
    num_cases self
    = Z.of_nat (size (list_to_set (map case_id raw) : gset Z)).
Proof.
  intros H. split_and!; [done..|].
  apply init_Ok_slots in H as (_ & _ & _ & _ & _ & raw & Hraw & Hdf & _ & _ & Hn).
  exists raw. split; [done|]. unfold num_cases. rewrite Hn. f_equal.
  rewrite (decode_table_case_id _ _ (decode_table _ _ Hdf)).
  rewrite <- (size_list_to_set (C:=gset Z)) by apply NoDup_unique.
  f_equal. apply set_eq. intros c.
  by rewrite !elem_of_list_to_set, elem_of_unique.
Qed.

(** *** Grouping and aggregation *)

Lemma foldl_min_is_minimum (l : list Z) (x : Z) :
  is_minimum (foldl Z.min x l) (x :: l).
Proof.
  unfold is_minimum. revert x. induction l as [|y l IH]; intros x.
  - cbn. split; [left|]. constructor; [lia|constructor].
  - cbn [foldl]. destruct (IH (Z.min x y)) as [Hin Hle].
    apply Forall_cons in Hle as [Hxy Hle]. split.
    + apply elem_of_cons in Hin as [->|Hin].
      * destruct (Z.min_spec x y) as [[_ ->]|[_ ->]];
          rewrite !elem_of_cons; tauto.
      * rewrite !elem_of_cons; tauto.
    + repeat constructor; [lia..|done].
Qed.

Lemma foldl_max_is_maximum (l : list Z) (x : Z) :
  is_maximum (foldl Z.max x l) (x :: l).
Proof.
  unfold is_maximum. revert x. induction l as [|y l IH]; intros x.
  - cbn. split; [left|]. constructor; [lia|constructor].
  - cbn [foldl]. destruct (IH (Z.max x y)) as [Hin Hle].
    apply Forall_cons in Hle as [Hxy Hle]. split.
    + apply elem_of_cons in Hin as [->|Hin].
      * destruct (Z.max_spec x y) as [[_ ->]|[_ ->]];
          rewrite !elem_of_cons; tauto.
      * rewrite !elem_of_cons; tauto.
    + repeat constructor; [lia..|done].
Qed.

Lemma series_min_spec (l : list Z) (m : Z) :
  series_min l = Some m <-> is_minimum m l.
Proof.
  destruct l as [|x l]; cbn [series_min].
  - split; [done|]. intros [Hin _]. by apply elem_of_nil in Hin.
  - pose proof (foldl_min_is_minimum l x) as [Hin Hle]. split.
    + by intros [= <-].
    + intros [Hin' Hle']. f_equal. rewrite Forall_forall in Hle, Hle'.
      apply Hle in Hin'. apply Hle' in Hin. lia.
Qed.

Lemma series_max_spec (l : list Z) (m : Z) :
  series_max l = Some m <-> is_maximum m l.
Proof.
  destruct l as [|x l]; cbn [series_max].
  - split; [done|]. intros [Hin _]. by apply elem_of_nil in Hin.
  - pose proof (foldl_max_is_maximum l x) as [Hin Hle]. split.
    + by intros [= <-].
    + intros [Hin' Hle']. f_equal. rewrite Forall_forall in Hle, Hle'.
      apply Hle in Hin'. apply Hle' in Hin. lia.
Qed.

Lemma sorted_unique_elem_of {A : Type} `{EqDecision A} (R : relation A)
    `{forall x y, Decision (R x y)} (l : list A) (x : A) :
  x ∈ merge_sort R (unique l) <-> x ∈ l.
Proof. by rewrite merge_sort_Permutation, elem_of_unique. Qed.

Lemma sorted_unique_NoDup {A : Type} `{EqDecision A} (R : relation A)
    `{forall x y, Decision (R x y)} (l : list A) :
  NoDup (merge_sort R (unique l)).
Proof. rewrite merge_sort_Permutation. apply NoDup_unique. Qed.

Lemma groupby_case_id_lookup (f : list Z -> list Z) (keys : list (Z * Z))
    (c : Z) :
  groupby_case_id f keys !! c
  = if decide (c ∈ map fst keys)
    then Some (f (map snd (filter (fun k => k.1 = c) keys)))
    else None.
Proof.
  unfold groupby_case_id.
  set (L := merge_sort Z.le (unique (map fst keys))).
  set (g := fun c => (c, f (map snd (filter (fun k : Z * Z => k.1 = c) keys)))).
  assert ((map g L).*1 = L) as Hfst.
  { clear. induction L as [|x L IH]; [done|]. cbn. by rewrite IH. }
  destruct (decide (c ∈ map fst keys)) as [Hin|Hin].
  - apply elem_of_list_to_map.
    + rewrite Hfst. apply sorted_unique_NoDup.
    + apply list_elem_of_fmap. exists c. split; [done|].
      by apply sorted_unique_elem_of.
  - apply not_elem_of_list_to_map_1. rewrite Hfst. unfold L.
    by rewrite sorted_unique_elem_of.
Qed.

Lemma groupby_case_id_elem_of (f : list Z -> list Z) (keys : list (Z * Z))
    (c t : Z) :
  (forall l x, x ∈ f l <-> x ∈ l) ->
  (exists l, groupby_case_id f keys !! c = Some l /\ t ∈ l) <-> (c, t) ∈ keys.
Proof.
  intros Hf. rewrite groupby_case_id_lookup. split.
  - intros (l & Hl & Ht). destruct (decide (c ∈ map fst keys)); [|done].
    injection Hl as <-. apply Hf, list_elem_of_fmap in Ht as ([c' t'] & -> & Hk).
    by apply list_elem_of_filter in Hk as [<- Hk].
  - intros Hk. rewrite decide_True
      by (apply list_elem_of_fmap; by exists (c, t)).
    eexists. split; [done|]. apply Hf, list_elem_of_fmap.
    exists (c, t). split; [done|]. by apply list_elem_of_filter.
Qed.

Lemma groupby_track_agg_elem_of (df : list (Row K)) (k : Z * Z)
    (a : TrackAgg) :
  (k, a) ∈ groupby_track_agg df <->
  is_minimum (min_timestamp a) (map timestamp_ms (track_group df k.1 k.2)) /\
  is_maximum (max_timestamp a) (map timestamp_ms (track_group df k.1 k.2)) /\
  head (map agent_type (track_group df k.1 k.2)) = Some (agg_agent_type a).
Proof.
  unfold groupby_track_agg, track_group. rewrite list_elem_of_omap.
  destruct k as [c t]. cbn [fst snd].
  set (g := filter (fun r => row_key r = (c, t)) df).
  split.
  - intros (k' & _ & Hk').
    destruct (series_min _) as [mn|] eqn:Emin; [|done].
    destruct (series_max _) as [mx|] eqn:Emax; [|done].
    destruct (series_first _) as [ty|] eqn:Ety; [|done].
    cbn [mbind option_bind] in Hk'. injection Hk' as -> <-.
    cbn [min_timestamp max_timestamp agg_agent_type]. fold g in Emin, Emax, Ety.
    by rewrite <- series_min_spec, <- series_max_spec.
  - intros (Hmin & Hmax & Hty). exists (c, t). fold g. split.
    + apply sorted_unique_elem_of.
      destruct Hmin as [Hin _].
      apply list_elem_of_fmap in Hin as (r & _ & Hr).
      apply list_elem_of_filter in Hr as [<- Hr].
      apply list_elem_of_fmap. by exists r.
    + apply series_min_spec in Hmin. apply series_max_spec in Hmax.
      rewrite Hmin, Hmax. unfold series_first. rewrite Hty.
      by destruct a.
Qed.

(** *** The indices of a constructed scenario *)

Lemma train_val_to_predict_elem_of (df : list (Row K)) (c t : Z) :
  (exists l, train_val_to_predict df !! c = Some l /\ t ∈ l) <->
  is_minimum 100 (map timestamp_ms (track_group df c t)) /\
  is_maximum 4000 (map timestamp_ms (track_group df c t)) /\
  exists cell, head (map agent_type (track_group df c t)) = Some cell /\
               cell_eq_int cell (AgentType_value CAR) = true.
Proof.
  unfold train_val_to_predict.
  rewrite groupby_case_id_elem_of by done.
  rewrite list_elem_of_fmap. split.
  - intros ([k a] & Hk & Hin). cbn [fst] in Hk. subst k.
    apply list_elem_of_filter in Hin as [(Hmin & Hmax & Hty) Hin].
    apply groupby_track_agg_elem_of in Hin as (Hmn & Hmx & Hhd).
    cbn [fst snd] in *. rewrite Hmin in Hmn. rewrite Hmax in Hmx.
    split_and!; [done..|]. by exists (agg_agent_type a).
  - intros (Hmin & Hmax & cell & Hhd & Hty).
    exists ((c, t), mkTrackAgg 100 4000 cell). split; [done|].
    apply list_elem_of_filter. split; [done|].
    by apply groupby_track_agg_elem_of.
Qed.

Lemma train_val_to_predict_None (df : list (Row K)) (c : Z) :
  train_val_to_predict df !! c = None <->
  ~ exists t l, train_val_to_predict df !! c = Some l /\ t ∈ l.
Proof.
  split.
  - intros E (t & l & Hl & _). congruence.
  - intros Hno. unfold train_val_to_predict in *.
    rewrite groupby_case_id_lookup in *.
    destruct (decide (c ∈ map fst _)) as [Hin|]; [|done].
    exfalso. apply Hno. apply list_elem_of_fmap in Hin as ([c' t] & -> & Hin).
    exists t. eexists. split; [done|]. cbn [fst].
    apply list_elem_of_fmap. exists (c', t). split; [done|].
    by apply list_elem_of_filter.
Qed.

Lemma train_val_to_predict_case (df : list (Row K)) (c : Z) l :
  train_val_to_predict df !! c = Some l -> c ∈ map case_id df.
Proof.
  unfold train_val_to_predict. rewrite groupby_case_id_lookup.
  destruct (decide (c ∈ map fst _)) as [Hin|]; [|done]. intros _.
  apply list_elem_of_fmap in Hin as ([c' t] & -> & Hin).
  apply list_elem_of_fmap in Hin as ([k a] & -> & Hin).
  apply list_elem_of_filter in Hin as [_ Hin].
  apply groupby_track_agg_elem_of in Hin as ([Hin _] & _).
  apply list_elem_of_fmap in Hin as (r & _ & Hr).
  apply list_elem_of_filter in Hr as [Hk Hr].
  apply list_elem_of_fmap. exists r. split; [|done].
  cbn [fst snd] in *. unfold row_key in Hk. by injection Hk as <- _.
Qed.

Lemma train_val_interesting_lookup (df : list (Row K)) (c : Z) :
  train_val_interesting df !! c
  = if decide (c ∈ map case_id df) then Some [] else None.
Proof.
  unfold train_val_interesting.
  set (g := fun c : Z => (c, @nil Z)).
  assert (forall L, (map g L).*1 = L) as Hfst.
  { induction L as [|x L IH]; [done|]. cbn. by rewrite IH. }
  destruct (decide (c ∈ map case_id df)) as [Hin|Hin].
  - apply elem_of_list_to_map.
    + rewrite Hfst. apply NoDup_unique.
    + apply list_elem_of_fmap. exists c. split; [done|].
      by apply elem_of_unique.
  - apply not_elem_of_list_to_map_1. rewrite Hfst. by rewrite elem_of_unique.
Qed.

Lemma decoded_track_group raw df (c t : Z) :
  Forall2 decoded_from raw df ->
  Forall2 decoded_from (track_group raw c t) (track_group df c t).
Proof.
  intros H. unfold track_group. eapply Forall2_filter; [|exact H].
  intros r d (a & _ & ->). by unfold row_key.
Qed.

Lemma decoded_timestamps raw df :
  Forall2 decoded_from raw df -> map timestamp_ms df = map timestamp_ms raw.
Proof.
  induction 1 as [|r d raw df (a & _ & ->) _ IH]; [done|].
  cbn [map timestamp_ms]. by rewrite IH.
Qed.

Lemma decoded_cells raw df :
  Forall2 decoded_from raw df ->
  Forall (fun d => exists a, agent_type d = Decoded a) df.
Proof.
  induction 1 as [|r d raw df (a & _ & ->) _ IH]; constructor; [|done].
  by exists a.
Qed.

Lemma to_predict_spans_as_car raw df (c t : Z) :
  value_injective ->
  Forall2 decoded_from raw df ->
  (exists l, train_val_to_predict df !! c = Some l /\ t ∈ l) <->
  spans_as_car raw c t.
Proof.
  intros Hinj Hdec. rewrite train_val_to_predict_elem_of. unfold spans_as_car.
  pose proof (decoded_track_group _ _ c t Hdec) as Hg.
  rewrite (decoded_timestamps _ _ Hg).
  apply and_iff_compat_l, and_iff_compat_l.
  destruct Hg as [|r d graw gdf (a & Ha & ->) _]; cbn [map head].
  - split; [intros (? & ? & _)|intros (? & ? & _)]; done.
  - cbn [agent_type]. split.
    + intros (cell & [= <-] & Hcar). exists r. split; [done|].
      cbn [cell_eq_int] in Hcar. apply bool_decide_eq_true in Hcar.
      by rewrite (Hinj _ _ Hcar) in Ha.
    + intros (r' & [= <-] & Hcar). exists (Decoded a). split; [done|].
      cbn [cell_eq_int]. apply bool_decide_eq_true. congruence.
Qed.

Lemma get_case_constructed (self : INTERACTIONScenario) (c : Z) :
  decoded_cells_decode ->
  Forall (fun d => exists a, agent_type d = Decoded a) (_frames self) ->
  (forall c', c' ∈ map case_id (_frames self) ->
              is_Some (_interesting_agents self !! c')) ->
  (forall c' l, _tracks_to_predict self !! c' = Some l ->
                c' ∈ map case_id (_frames self)) ->
  match _tracks_to_predict self !! c with
  | Some _ => exists case, get_case self c = Ok case
  | None => get_case self c = Raise (KeyError c)
  end.
Proof.
  intros Hidem Hcells Hia Htp.
  unfold get_case, _get_history, _get_current, _get_futural.
  destruct (decide (c ∈ map case_id (_frames self))) as [Hin|Hin].
  - rewrite (loc_case_Ok _ _ Hin). step.
    assert (forall P `{forall r : Row K, Decision (P r)},
              exists tracks,
                get_tracks_from_frame
                  (filter P (filter (fun r => case_id r = c) (_frames self)))
                = Ok tracks) as Htot.
    { intros P ?. apply get_tracks_from_frame_total, Forall_forall.
      intros d Hd. apply list_elem_of_filter in Hd as [_ Hd].
      apply list_elem_of_filter in Hd as [_ Hd].
      eapply Forall_forall in Hcells as [a Ha]; [|exact Hd].
      unfold row_type. rewrite Ha, Hidem. by eexists. }
    destruct (Htot (fun r => timestamp_ms r <= 1000) _) as [h ->].
    destruct (Htot (fun r => timestamp_ms r = 1000) _) as [cu ->].
    destruct (Htot (fun r => timestamp_ms r > 1000) _) as [fu ->].
    step.
    destruct (_tracks_to_predict self !! c) as [tp|] eqn:E.
    + apply dict_getitem_Ok in E. rewrite E. step.
      destruct (Hia c Hin) as [ia Hia'].
      apply dict_getitem_Ok in Hia'. rewrite Hia'. by eexists.
    + by rewrite (dict_getitem_Raise _ _ E).
  - rewrite (loc_case_Raise _ _ Hin). step.
    destruct (_tracks_to_predict self !! c) as [tp|] eqn:E; [|done].
    by apply Htp in E.
Qed.

Lemma track_group_columns (df : list (Row K)) (c t : Z) :
  track_group df c t
  = filter (fun r => case_id r = c /\ track_id r = t) df.
Proof.
  unfold track_group. apply list_filter_iff. intros r. unfold row_key.
  split; [by intros [= -> ->]|by intros [-> ->]].
Qed.

Lemma spans_as_car_columns (raw : list (Row K)) (c t : Z) :
  spans_as_car raw c t <-> to_be_predicted raw c t.
Proof.
  unfold spans_as_car, to_be_predicted. by rewrite track_group_columns.
Qed.

(** C4: in a constructed (train/val) scenario a track id [t] is listed
    under case [c] in the index of tracks to predict exactly when the rows
    of the file with [case_id = c] and [track_id = t] have least timestamp
    100, greatest timestamp 4000, and the first of them decodes to a car;
    when the first of them decodes to a pedestrian/bicycle the track is not
    listed, whatever its timestamps. *)
Theorem train_val_tracks_to_predict (root loc : string)
    (split : option string) (self : INTERACTIONScenario)
    (raw : list (Row K)) (c t : Z) :
  value_injective ->
  __init__ root loc split = Ok self ->
  read_csv (track_file self) = Ok raw ->
  let group := filter (fun r => case_id r = c /\ track_id r = t) raw in
  _split self ∈ ["train"; "val"] /\
  ((exists l, _tracks_to_predict self !! c = Some l /\ t ∈ l) <->
   is_minimum 100 (map timestamp_ms group) /\
   is_maximum 4000 (map timestamp_ms group) /\
   exists r, head group = Some r /\ deserialize (agent_type r) = Ok CAR) /\
  (forall r l,
     head group = Some r ->
     deserialize (agent_type r) = Ok PEDESTRIAN_BICYCLE ->
     _tracks_to_predict self !! c = Some l -> t ∉ l).
Proof.
  intros Hinj Hinit Hraw group.
  apply init_Ok_slots in Hinit
    as (_ & _ & Hsp & Hne & _ & raw' & Hraw' & Hdf & Htp & _).
  rewrite Hraw in Hraw'. injection Hraw' as <-.
  apply decode_table in Hdf. rewrite Htp.
  pose proof (to_predict_spans_as_car _ _ c t Hinj Hdf) as Hiff.
  rewrite spans_as_car_columns in Hiff. unfold to_be_predicted in Hiff.
  fold group in Hiff.
  split_and!.
  - rewrite !elem_of_cons in *. intuition.
  - done.
  - intros r l Hhd Hped Hl Hin.
    assert (exists r', head group = Some r' /\
                       deserialize (agent_type r') = Ok CAR)
      as (r' & Hhd' & Hcar) by (apply Hiff; eauto).
    congruence.
Qed.

Lemma train_val_to_predict_inhabited (df : list (Row K)) (c : Z) l :
  train_val_to_predict df !! c = Some l -> exists t, t ∈ l.
Proof.
  intros Hl. destruct l as [|t l]; [|exists t; left].
  assert (train_val_to_predict df !! c = None) as E; [|congruence].
  apply train_val_to_predict_None. intros (t & l & Hl' & Ht).
  rewrite Hl in Hl'. injection Hl' as <-. by apply elem_of_nil in Ht.
Qed.

Lemma constructed_get_case root loc split (self : INTERACTIONScenario)
    (c : Z) :
  decoded_cells_decode ->
  __init__ root loc split = Ok self ->
  match _tracks_to_predict self !! c with
  | Some _ => exists case, get_case self c = Ok case
  | None => get_case self c = Raise (KeyError c)
  end.
Proof.
  intros Hidem Hinit.
  apply init_Ok_slots in Hinit
    as (_ & _ & _ & _ & _ & raw & _ & Hdf & Htp & Hia & _).
  apply decode_table in Hdf. apply get_case_constructed; [done| | |].
  - by eapply decoded_cells.
  - intros c' Hc'. rewrite Hia, train_val_interesting_lookup.
    by rewrite decide_True.
  - intros c' l. rewrite Htp. apply train_val_to_predict_case.
Qed.

(** X17: in a constructed (train/val) scenario the index of tracks to
    predict has a key exactly for the cases with a track to be predicted (a
    track of the case whose rows run from 100 to 4000 and begin as a car);
    [get_case] raises [KeyError] on every other case id, and on a case with
    such a track it returns a case whose list of tracks to predict is not
    empty. *)
Theorem index_keys_and_key_error (root loc : string) (split : option string)
    (self : INTERACTIONScenario) (raw : list (Row K)) :
  value_injective ->
  decoded_cells_decode ->
  __init__ root loc split = Ok self ->
  read_csv (track_file self) = Ok raw ->
  _split self ∈ ["train"; "val"] /\
  (forall c, is_Some (_tracks_to_predict self !! c) <->
             exists t, to_be_predicted raw c t) /\
  (forall c, ~ (exists t, to_be_predicted raw c t) ->
             get_case self c = Raise (KeyError c)) /\
  (forall c, (exists t, to_be_predicted raw c t) ->
             exists case, get_case self c = Ok case /\
                          ic_tracks_to_predict case <> []).
Proof.
  intros Hinj Hidem Hinit Hraw.
  pose proof (fun c => constructed_get_case _ _ _ _ c Hidem Hinit) as Hget.
  apply init_Ok_slots in Hinit
    as (_ & _ & Hsp & Hne & _ & raw' & Hraw' & Hdf & Htp & Hia & _).
  rewrite Hraw in Hraw'. injection Hraw' as <-.
  apply decode_table in Hdf.
  assert (forall c t,
            (exists l, _tracks_to_predict self !! c = Some l /\ t ∈ l) <->
            to_be_predicted raw c t) as Hiff.
  { intros c t. rewrite Htp, <- spans_as_car_columns.
    by apply to_predict_spans_as_car. }
  assert (forall c, is_Some (_tracks_to_predict self !! c) <->
                    exists t, to_be_predicted raw c t) as Hkeys.
  { intros c. split.
    - intros [l Hl]. pose proof Hl as Hl'. rewrite Htp in Hl'.
      apply train_val_to_predict_inhabited in Hl' as [t Ht].
      exists t. apply Hiff. eauto.
    - intros [t Ht]. apply Hiff in Ht as (l & Hl & _). by exists l. }
  split_and!.
  - rewrite !elem_of_cons in *. intuition.
  - done.
  - intros c Hno. specialize (Hget c).
    destruct (_tracks_to_predict self !! c) as [l|] eqn:E; [|done].
    exfalso. apply Hno, Hkeys. by exists l.
  - intros c Hsome. specialize (Hget c). apply Hkeys in Hsome as [l Hl].
    rewrite Hl in Hget. destruct Hget as [case Hcase]. exists case.
    split; [done|]. apply get_case_Ok in Hcase as (_ & _ & _ & Hl' & _).
    rewrite Hl in Hl'. injection Hl' as <-. rewrite Htp in Hl.
    apply train_val_to_predict_inhabited in Hl as [t Ht].
    intros ->. by apply elem_of_nil in Ht.
Qed.

(** C1 (as the code has it): the test [case_id >= num_cases] is made by
    [render], which raises [ValueError] before any extraction; [get_case]
    makes no such test and never raises [ValueError]: on a constructed
    scenario it either returns the case or raises [KeyError]. *)
Theorem range_check_in_render (root loc : string) (split : option string)
    (self : INTERACTIONScenario) (c : Z) (opts : RenderOptions) :
  decoded_cells_decode ->
  __init__ root loc split = Ok self ->
  (c >= num_cases self ->
     render self c opts
     = Raise (ValueError ("Invalid case_id " +:+ pretty c +:+ " for scenario "
                            +:+ location self +:+ "."))) /\
  (c < num_cases self ->
     render self c opts = get_case self c ≫= fun case => case_render case opts)
  /\
  (forall msg, get_case self c <> Raise (ValueError msg)) /\
  (get_case self c = Raise (KeyError c) \/
   exists case, get_case self c = Ok case).
Proof.
  intros Hidem Hinit.
  pose proof (constructed_get_case _ _ _ _ c Hidem Hinit) as Hget.
  unfold render, num_cases, location. split_and!.
  - intros Hc. by rewrite decide_True.
  - intros Hc. rewrite decide_False by lia. done.
  - intros msg E. destruct (_tracks_to_predict self !! c).
    + destruct Hget as [case Hcase]. congruence.
    + congruence.
  - destruct (_tracks_to_predict self !! c); [by right|by left].
Qed.

(** *** The test branch *)


(** C5: construction on the test split stops in the test branch: whenever
    the file is read and decoded, the conversion of the first index raises
    [AttributeError], so neither index is stored and no object is built. *)
Theorem test_split_construction_raises (root loc : string)
    (raw df : list (Row K)) :
  read_csv (track_file_of (Path_resolve root) loc "test") = Ok raw ->
  apply_each decode_agent_type raw = Ok df ->
  __init__ root loc (Some "test")
  = Raise (AttributeError "'dict' object has no attribute 'to_dict'") /\
  forall self, __init__ root loc (Some "test") <> Ok self.
Proof.
  intros Hraw Hdf. unfold __init__. step.
  rewrite decide_True by (rewrite !elem_of_cons; tauto).
  rewrite (init_scenario_test _ _ _ _ Hraw Hdf). by split.
Qed.

(** *** Further properties of the accessors *)

Lemma track_states_from_rows (frame : TrackFrame K) tracks tr ms :
  get_tracks_from_frame frame = Ok tracks ->
  tr ∈ tracks -> ms ∈ motion_states tr ->
  exists r, r ∈ frame /\ track_id r = agent_id tr /\ ms = to_motion_state r.
Proof.
  intros Htr Hin Hms. apply get_tracks_from_frame_Ok in Htr as [_ Hall].
  eapply Forall_forall in Hall as [Hst _]; [|exact Hin].
  rewrite Hst in Hms. apply list_elem_of_fmap in Hms as (r & -> & Hr).
  apply list_elem_of_filter in Hr as [Hid Hr]. by exists r.
Qed.

Lemma tracks_cover_rows (frame : TrackFrame K) tracks r :
  get_tracks_from_frame frame = Ok tracks ->
  r ∈ frame ->
  exists tr, tr ∈ tracks /\ agent_id tr = track_id r /\
             to_motion_state r ∈ motion_states tr.
Proof.
  intros Htr Hr. apply get_tracks_from_frame_Ok in Htr as [Hids Hall].
  assert (track_id r ∈ map agent_id tracks) as Hid.
  { rewrite Hids. apply elem_of_unique, list_elem_of_fmap. eauto. }
  apply list_elem_of_fmap in Hid as (tr & Hid & Hin).
  exists tr. split_and!; [done..|].
  eapply Forall_forall in Hall as [Hst _]; [|exact Hin].
  rewrite Hst. apply list_elem_of_fmap. exists r. split; [done|].
  by apply list_elem_of_filter.
Qed.

Lemma tracks_not_empty (frame : TrackFrame K) tracks tr :
  get_tracks_from_frame frame = Ok tracks ->
  tr ∈ tracks -> motion_states tr <> [].
Proof.
  intros Htr Hin. apply get_tracks_from_frame_Ok in Htr as [Hids Hall].
  eapply Forall_forall in Hall as [Hst _]; [|exact Hin].
  assert (agent_id tr ∈ map track_id frame) as Hid.
  { apply elem_of_unique. rewrite <- Hids. apply list_elem_of_fmap. eauto. }
  apply rows_of_track_last in Hid as (r & Hlast & _).
  rewrite Hst. intros E. apply fmap_nil_inv in E.
  rewrite E in Hlast. done.
Qed.

(** X3: a case id that labels no row of the motion-state layer makes
    [get_case], and with it indexing, raise [KeyError] on that id, whatever
    the indices hold; [render] does the same when the id is below
    [num_cases], so an id inside the numeric range is no guarantee. *)
Theorem absent_case_raises_KeyError (self : INTERACTIONScenario) (c : Z)
    (opts : RenderOptions) :
  c ∉ map case_id (_frames self) ->
  get_case self c = Raise (KeyError c) /\
  __getitem__ self c = Raise (KeyError c) /\
  (c < num_cases self -> render self c opts = Raise (KeyError c)).
Proof.
  intros Hc.
  assert (get_case self c = Raise (KeyError c)) as Hget.
  { unfold get_case, _get_history. by rewrite (loc_case_Raise _ _ Hc). }
  split_and!; [done..|].
  intros Hlt. unfold render, num_cases in *.
  rewrite decide_False by lia. by rewrite Hget.
Qed.

(** X4: the track lists of a returned case respect the windows: every
    motion state of a history track has timestamp at most 1000, of a
    current track exactly 1000, of a future track above 1000; every row of
    the case is a motion state of the track of its id in the list of its
    window; every current track has a history track of the same id; and no
    track is empty. *)
Theorem case_tracks_respect_windows (self : INTERACTIONScenario) (c : Z)
    (case : INTERACTIONCase K) :
  get_case self c = Ok case ->
  (forall tr ms, ms ∈ motion_states tr ->
     (tr ∈ ic_history_tracks case -> ms_timestamp_ms ms <= 1000) /\
     (tr ∈ ic_current_tracks case -> ms_timestamp_ms ms = 1000) /\
     (tr ∈ ic_futural_tracks case -> ms_timestamp_ms ms > 1000)) /\
  (forall r, r ∈ _frames self -> case_id r = c ->
     exists tr, agent_id tr = track_id r /\
                to_motion_state r ∈ motion_states tr /\
                (if decide (timestamp_ms r <= 1000)
                 then tr ∈ ic_history_tracks case
                 else tr ∈ ic_futural_tracks case)) /\
  (forall tr, tr ∈ ic_current_tracks case ->
     exists tr', tr' ∈ ic_history_tracks case /\ agent_id tr' = agent_id tr)
  /\
  (forall tr, tr ∈ ic_history_tracks case ++ ic_current_tracks case
                   ++ ic_futural_tracks case ->
              motion_states tr <> []).
Proof.
  intros Hg. apply get_case_Ok in Hg as (Hh & Hc & Hf & _).
  split_and!.
  - intros tr ms Hms. split_and!; intros Htr.
    + destruct (track_states_from_rows _ _ _ _ Hh Htr Hms) as (r & Hr & _ & ->).
      by apply list_elem_of_filter in Hr as [? _].
    + destruct (track_states_from_rows _ _ _ _ Hc Htr Hms) as (r & Hr & _ & ->).
      by apply list_elem_of_filter in Hr as [? _].
    + destruct (track_states_from_rows _ _ _ _ Hf Htr Hms) as (r & Hr & _ & ->).
      by apply list_elem_of_filter in Hr as [? _].
  - intros r Hr Hcase.
    assert (r ∈ filter (fun r => case_id r = c) (_frames self)) as Hrows
      by (by apply list_elem_of_filter).
    destruct (decide (timestamp_ms r <= 1000)) as [Hle|Hgt].
    + destruct (tracks_cover_rows _ _ r Hh) as (tr & ? & ? & ?);
        [by apply list_elem_of_filter|]. by exists tr.
    + destruct (tracks_cover_rows _ _ r Hf) as (tr & ? & ? & ?);
        [apply list_elem_of_filter; split; [lia|done]|]. by exists tr.
  - intros tr Htr.
    destruct (motion_states tr) as [|ms mss] eqn:E.
    { by apply (tracks_not_empty _ _ _ Hc Htr) in E. }
    destruct (track_states_from_rows _ _ tr ms Hc Htr) as (r & Hr & Hid & _);
      [rewrite E; left|].
    apply list_elem_of_filter in Hr as [Hts Hr].
    destruct (tracks_cover_rows _ _ r Hh) as (tr' & ? & ? & _);
      [apply list_elem_of_filter; split; [lia|done]|].
    exists tr'. split; [done|]. congruence.
  - intros tr. rewrite !elem_of_app. intros [Htr|[Htr|Htr]];
      eauto using tracks_not_empty.
Qed.

Lemma defaultdict_append_concat {V : Type} (d : list (Z * list V)) k v :
  concat (map snd (defaultdict_append d k v)) ≡ₚ concat (map snd d) ++ [v].
Proof.
  induction d as [|[k' vs] d IH]; cbn [defaultdict_append]; [done|].
  destruct (decide (k' = k)); cbn [map snd concat].
  - rewrite <- !(assoc (++)). f_equiv. apply Permutation_app_comm.
  - rewrite IH. by rewrite (assoc (++)).
Qed.

Lemma tracks_loop_concat (frame : TrackFrame K) acc :
  for_each tracks_loop_body frame ([], ∅) = Ok acc ->
  concat (map snd acc.1) ≡ₚ map to_motion_state frame.
Proof.
  revert acc. induction frame as [|r frame IH] using rev_ind; intros acc.
  - by intros [= <-].
  - rewrite for_each_snoc.
    destruct (for_each tracks_loop_body frame ([], ∅)) as [acc0|e]; [|done].
    step. unfold tracks_loop_body.
    destruct (deserialize (agent_type r)) as [ty|e]; [|done].
    step. intros [= <-]. cbn [fst].
    rewrite defaultdict_append_concat, (IH acc0 eq_refl), map_app. done.
Qed.

(** X5: the reshape neither drops nor repeats a row: the motion states of
    the returned tracks, taken together, are the motion states of the
    frame's rows, each as often as its row occurs, so the tracks hold as
    many motion states as the frame has rows. *)
Theorem reshape_keeps_every_row (frame : TrackFrame K)
    (tracks : list (Track K)) :
  get_tracks_from_frame frame = Ok tracks ->
  concat (map motion_states tracks) ≡ₚ map to_motion_state frame /\
  length (concat (map motion_states tracks)) = length frame.
Proof.
  intros Htr.
  assert (concat (map motion_states tracks) ≡ₚ map to_motion_state frame)
    as Hperm.
  { unfold get_tracks_from_frame in Htr.
    destruct (for_each tracks_loop_body frame ([], ∅)) as [acc|e] eqn:E;
      [|done].
    step in Htr. rewrite <- (tracks_loop_concat _ _ E).
    apply apply_each_Forall2 in Htr.
    assert (map motion_states tracks = map snd acc.1) as ->; [|done].
    clear E. induction Htr as [|kv t kvs ts Hkt _ IH]; [done|].
    destruct (dict_getitem acc.2 kv.1) as [ty|e]; [|done].
    step in Hkt. injection Hkt as <-. cbn [map motion_states].
    by rewrite IH. }
  split; [done|]. by rewrite Hperm, length_map.
Qed.

Lemma for_each_app {A S : Type} (body : S -> A -> result S)
    (xs ys : list A) (acc : S) :
  for_each body (xs ++ ys) acc = for_each body xs acc ≫= for_each body ys.
Proof.
  revert acc. induction xs as [|x xs IH]; intros acc; cbn [for_each app];
    [done|].
  destruct (body acc x); step; [apply IH|done].
Qed.

Lemma first_undecodable_row (frame : TrackFrame K) :
  Forall (fun r => is_Some (row_type r)) frame \/
  exists l1 r l2 e,
    frame = l1 ++ r :: l2 /\ Forall (fun r => is_Some (row_type r)) l1 /\
    deserialize (agent_type r) = Raise e.
Proof.
  induction frame as [|r frame IH]; [by left|].
  destruct (deserialize (agent_type r)) as [a|e] eqn:E.
  - destruct IH as [IH|(l1 & r' & l2 & e & -> & Hl1 & He)].
    + left. constructor; [|done]. unfold row_type. rewrite E. by eexists.
    + right. exists (r :: l1), r', l2, e. split_and!; [done| |done].
      constructor; [|done]. unfold row_type. rewrite E. by eexists.
  - right. by exists [], r, frame, e.
Qed.

(** X6: [get_tracks_from_frame] raises exactly when an agent-type cell of
    the frame does not decode, and then with the error of the first such
    row in frame order; it raises nothing of its own. *)
Theorem reshape_raises_first_decoding_error (frame : TrackFrame K)
    (e : exn) :
  get_tracks_from_frame frame = Raise e <->
  exists l1 r l2,
    frame = l1 ++ r :: l2 /\ Forall (fun r => is_Some (row_type r)) l1 /\
    deserialize (agent_type r) = Raise e.
Proof.
  assert (forall l1 r l2 e',
            Forall (fun r => is_Some (row_type r)) l1 ->
            deserialize (agent_type r) = Raise e' ->
            get_tracks_from_frame (l1 ++ r :: l2) = Raise e') as Hraise.
  { intros l1 r l2 e' Hl1 He'. unfold get_tracks_from_frame.
    rewrite for_each_app.
    destruct (tracks_loop_total l1 ([], ∅) Hl1) as [acc ->].
    step. cbn [for_each].
    assert (tracks_loop_body acc r = Raise e') as ->; [|done].
    unfold tracks_loop_body. by rewrite He'. }
  split.
  - intros Hgt.
    destruct (first_undecodable_row frame)
      as [Hall|(l1 & r & l2 & e' & -> & Hl1 & He')].
    + destruct (get_tracks_from_frame_total _ Hall) as [tracks Htr].
      congruence.
    + rewrite (Hraise _ _ _ _ Hl1 He') in Hgt. injection Hgt as ->.
      by exists l1, r, l2.
  - intros (l1 & r & l2 & -> & Hl1 & He). by apply Hraise.
Qed.

(** *** Further properties of a constructed scenario *)

Lemma track_group_elem_of (df : list (Row K)) (c t : Z) (r : Row K) :
  r ∈ track_group df c t <-> r ∈ df /\ case_id r = c /\ track_id r = t.
Proof.
  unfold track_group. rewrite list_elem_of_filter. unfold row_key.
  split; [intros [[= <- <-] ?]|intros (? & <- & <-)]; done.
Qed.

(** X7: in a case returned by a constructed scenario, every track id listed
    to predict has a history track holding its motion state at timestamp
    100 and a future track holding its motion state at 4000, and all motion
    states of that id in the case lie between 100 and 4000. *)
Theorem predicted_tracks_span_the_case (root loc : string)
    (split : option string) (self : INTERACTIONScenario) (c : Z)
    (case : INTERACTIONCase K) (t : Z) :
  __init__ root loc split = Ok self ->
  get_case self c = Ok case ->
  t ∈ ic_tracks_to_predict case ->
  (exists tr ms, tr ∈ ic_history_tracks case /\ agent_id tr = t /\
                 ms ∈ motion_states tr /\ ms_timestamp_ms ms = 100) /\
  (exists tr ms, tr ∈ ic_futural_tracks case /\ agent_id tr = t /\
                 ms ∈ motion_states tr /\ ms_timestamp_ms ms = 4000) /\
  (forall tr ms,
     tr ∈ ic_history_tracks case ++ ic_current_tracks case
          ++ ic_futural_tracks case ->
     agent_id tr = t -> ms ∈ motion_states tr ->
     100 <= ms_timestamp_ms ms <= 4000).
Proof.
  intros Hinit Hg Ht.
  apply init_Ok_slots in Hinit as (_ & _ & _ & _ & _ & raw & _ & _ & Htp & _).
  apply get_case_Ok in Hg as (Hh & Hc & Hf & Hl & _).
  rewrite Htp in Hl.
  assert (exists l, train_val_to_predict (_frames self) !! c = Some l /\ t ∈ l)
    as Hidx by eauto.
  apply train_val_to_predict_elem_of in Hidx as ([Hmin Hge] & [Hmax Hle] & _).
  split_and!.
  - apply list_elem_of_fmap in Hmin as (r & Hts & Hr).
    apply track_group_elem_of in Hr as (Hr & Hcase & Hid).
    destruct (tracks_cover_rows _ _ r Hh) as (tr & ? & ? & ?).
    { rewrite !list_elem_of_filter. split; [lia|done]. }
    exists tr, (to_motion_state r). split_and!; [done|congruence|done|done].
  - apply list_elem_of_fmap in Hmax as (r & Hts & Hr).
    apply track_group_elem_of in Hr as (Hr & Hcase & Hid).
    destruct (tracks_cover_rows _ _ r Hf) as (tr & ? & ? & ?).
    { rewrite !list_elem_of_filter. split; [lia|done]. }
    exists tr, (to_motion_state r). split_and!; [done|congruence|done|done].
  - intros tr ms Htr Hid Hms.
    assert (exists r, r ∈ _frames self /\ case_id r = c /\
                      track_id r = agent_id tr /\ ms = to_motion_state r)
      as (r & Hr & Hcase & Hrid & ->).
    { rewrite !elem_of_app in Htr. destruct Htr as [Htr|[Htr|Htr]].
      - destruct (track_states_from_rows _ _ _ _ Hh Htr Hms)
          as (r & Hr & ? & ?).
        apply list_elem_of_filter in Hr as [_ Hr].
        apply list_elem_of_filter in Hr as [? Hr]. by exists r.
      - destruct (track_states_from_rows _ _ _ _ Hc Htr Hms)
          as (r & Hr & ? & ?).
        apply list_elem_of_filter in Hr as [_ Hr].
        apply list_elem_of_filter in Hr as [? Hr]. by exists r.
      - destruct (track_states_from_rows _ _ _ _ Hf Htr Hms)
          as (r & Hr & ? & ?).
        apply list_elem_of_filter in Hr as [_ Hr].
        apply list_elem_of_filter in Hr as [? Hr]. by exists r. }
    assert (timestamp_ms r ∈ map timestamp_ms (track_group (_frames self) c t))
      as Hin.
    { apply list_elem_of_fmap. exists r. split; [done|].
      apply track_group_elem_of. split_and!; [done..|congruence]. }
    rewrite Forall_forall in Hge, Hle.
    specialize (Hge _ Hin). specialize (Hle _ Hin).
    cbn [to_motion_state ms_timestamp_ms]. lia.
Qed.

Lemma unique_length {A : Type} `{EqDecision A} (l : list A) :
  (length (unique l) <= length l)%nat.
Proof.
  induction l as [|x l IH]; cbn [unique length]; [done|].
  pose proof (length_filter (fun y => y <> x) (unique l)). lia.
Qed.

(** X9: bounds on the derived slots of a constructed scenario: [num_cases]
    lies between 0 and the number of rows and is 0 only for a table without
    rows; the index of interesting agents has exactly [num_cases] keys, the
    case ids of the table, each mapped to the empty list; and every key of
    the index of tracks to predict is one of them. *)
Theorem derived_slots_bounds (root loc : string) (split : option string)
    (self : INTERACTIONScenario) :
  __init__ root loc split = Ok self ->
  (0 <= num_cases self <= Z.of_nat (length (_frames self))) /\
  (num_cases self = 0 <-> _frames self = []) /\
  Z.of_nat (size (_interesting_agents self)) = num_cases self /\
  (forall c l, _interesting_agents self !! c = Some l ->
               l = [] /\ c ∈ map case_id (_frames self)) /\
  dom (_tracks_to_predict self) ⊆ dom (_interesting_agents self).
Proof.
  intros Hinit.
  apply init_Ok_slots in Hinit
    as (_ & _ & _ & _ & _ & raw & _ & _ & Htp & Hia & Hn).
  unfold num_cases. rewrite Hn, Hia, Htp.
  set (df := _frames self). split_and!.
  - lia.
  - pose proof (unique_length (map case_id df)) as Hle.
    rewrite length_map in Hle. lia.
  - destruct df as [|r df]; [done|]. cbn [map unique length]. split; [lia|done].
  - f_equal. unfold train_val_interesting.
    rewrite map_size_list_to_map, length_map; [done|].
    assert (forall L : list Z, (map (fun c => (c, @nil Z)) L).*1 = L) as ->.
    { induction L as [|x L IH]; [done|]. cbn. by rewrite IH. }
    apply NoDup_unique.
  - intros c l. rewrite train_val_interesting_lookup.
    destruct (decide (c ∈ map case_id df)); [|done]. by intros [= <-].
  - intros c. rewrite !elem_of_dom. intros [l Hl].
    apply train_val_to_predict_case in Hl.
    rewrite train_val_interesting_lookup. by rewrite decide_True.
Qed.

(** X10: the motion-state layer of a constructed scenario is the table of
    the track file, row for row in file order, with nothing but the
    [agent_type] cell replaced by the member it decodes to. *)
Theorem layer_keeps_file_rows (root loc : string) (split : option string)
    (self : INTERACTIONScenario) (raw : list (Row K)) :
  __init__ root loc split = Ok self ->
  read_csv (track_file self) = Ok raw ->
  length (_frames self) = length raw /\
  forall (i : nat) (r : Row K),
    raw !! i = Some r ->
    exists a,
      deserialize (agent_type r) = Ok a /\
      _frames self !! i
      = Some (mkRow (case_id r) (track_id r) (timestamp_ms r) (Decoded a)
                (kinematics r) (tracks_to_predict r) (interesting_agent r)).
Proof.
  intros Hinit Hraw.
  apply init_Ok_slots in Hinit as (_ & _ & _ & _ & _ & raw' & Hraw' & Hdf & _).
  rewrite Hraw in Hraw'. injection Hraw' as <-. apply decode_table in Hdf.
  split; [symmetry; by eapply Forall2_length|].
  intros i r Hi.
  destruct (Forall2_lookup_l _ _ _ _ _ Hdf Hi) as (d & Hd & a & Ha & ->).
  by exists a.
Qed.

Lemma apply_each_first_error {A B : Type} (f : A -> result B)
    (l1 : list A) (x : A) (l2 : list A) (e : exn) :
  Forall (fun y => exists b, f y = Ok b) l1 ->
  f x = Raise e ->
  apply_each f (l1 ++ x :: l2) = Raise e.
Proof.
  intros Hl1 Hx. induction Hl1 as [|y l1 [b Hy] _ IH]; cbn [app apply_each].
  - by rewrite Hx.
  - rewrite Hy. step. by rewrite IH.
Qed.

(** X11: construction leaves no object behind a failure: with one of the
    three split names given, an error of reading the track file is raised
    as it is, and so is the decoding error of the first row whose agent
    type does not decode. *)
Theorem construction_propagates_errors (root loc s : string) :
  s ∈ ["train"; "val"; "test"] ->
  (forall e,
     read_csv (track_file_of (Path_resolve root) loc s) = Raise e ->
     __init__ root loc (Some s) = Raise e) /\
  (forall raw l1 r l2 e,
     read_csv (track_file_of (Path_resolve root) loc s) = Ok raw ->
     raw = l1 ++ r :: l2 ->
     Forall (fun r => is_Some (row_type r)) l1 ->
     deserialize (agent_type r) = Raise e ->
     __init__ root loc (Some s) = Raise e).
Proof.
  intros Hs. unfold __init__. step. rewrite decide_True by done.
  unfold _init_scenario. split.
  - by intros e ->.
  - intros raw l1 r l2 e -> -> Hl1 He. step.
    rewrite (apply_each_first_error _ l1 r l2 e); [done| |].
    + eapply Forall_impl; [exact Hl1|]. intros r' [a Ha].
      unfold row_type in Ha. unfold decode_agent_type.
      destruct (deserialize (agent_type r')); [by eexists|done].
    + unfold decode_agent_type. by rewrite He.
Qed.

(** *** The order of the index lists *)

Local Instance key_le_total : Total key_le.
Proof. intros [a b] [c d]. unfold key_le. cbn. lia. Qed.

Local Instance key_le_trans : Transitive key_le.
Proof. intros [a b] [c d] [e f]. unfold key_le. cbn. lia. Qed.

Lemma StronglySorted_sublist {A : Type} (R : relation A) (l1 l2 : list A) :
  l1 `sublist_of` l2 -> StronglySorted R l2 -> StronglySorted R l1.
Proof.
  induction 1 as [|x l1 l2 Hsub IH|x l1 l2 Hsub IH]; [done| |].
  - rewrite !StronglySorted_cons. intros [Hx Hl2]. split; [|by apply IH].
    rewrite Forall_forall in *. intros y Hy. apply Hx.
    by apply (sublist_subseteq _ _ Hsub).
  - rewrite StronglySorted_cons. intros [_ Hl2]. by apply IH.
Qed.

Lemma StronglySorted_NoDup_strict (l : list (Z * Z)) :
  StronglySorted key_le l -> NoDup l ->
  StronglySorted (fun k1 k2 => key_le k1 k2 /\ k1 <> k2) l.
Proof.
  induction l as [|k l IH]; [constructor|].
  rewrite !StronglySorted_cons, NoDup_cons. intros [Hk Hl] [Hnin Hnd].
  split; [|by apply IH]. rewrite Forall_forall in *. intros k' Hk'.
  split; [by apply Hk|]. by intros ->.
Qed.

Lemma groupby_track_agg_keys_sublist (df : list (Row K)) (P : _ -> Prop)
    `{forall ka, Decision (P ka)} :
  map fst (filter P (groupby_track_agg df))
    `sublist_of` merge_sort key_le (unique (map row_key df)).
Proof.
  unfold groupby_track_agg.
  induction (merge_sort key_le (unique (map row_key df))) as [|k L IH];
    [done|].
  cbn [omap list_omap].
  destruct (series_min _) as [mn|]; [|by apply sublist_cons].
  destruct (series_max _) as [mx|]; [|by apply sublist_cons].
  destruct (series_first _) as [ty|]; [|by apply sublist_cons].
  cbn [mbind option_bind]. rewrite filter_cons.
  destruct (decide (P _)); [by apply sublist_skip|by apply sublist_cons].
Qed.

Lemma train_val_to_predict_sorted (df : list (Row K)) (c : Z) (l : list Z) :
  train_val_to_predict df !! c = Some l -> StronglySorted Z.lt l.
Proof.
  unfold train_val_to_predict. rewrite groupby_case_id_lookup.
  destruct (decide (c ∈ map fst _)); [|done]. intros [= <-].
  set (keys := map fst (filter is_track_to_predict (groupby_track_agg df))).
  assert (StronglySorted (fun k1 k2 => key_le k1 k2 /\ k1 <> k2) keys)
    as Hkeys.
  { eapply StronglySorted_sublist;
      [apply groupby_track_agg_keys_sublist|].
    apply StronglySorted_NoDup_strict;
      [apply StronglySorted_merge_sort; apply _|apply sorted_unique_NoDup]. }
  clearbody keys. induction keys as [|[c' t] keys IH]; [constructor|].
  apply StronglySorted_cons in Hkeys as [Hk Hkeys].
  rewrite filter_cons. cbn [fst].
  destruct (decide (c' = c)) as [->|]; [|by apply IH].
  cbn [map snd]. apply StronglySorted_cons. split; [|by apply IH].
  apply Forall_forall. intros t' Ht'.
  apply list_elem_of_fmap in Ht' as ([c'' t''] & -> & Hin).
  apply list_elem_of_filter in Hin as [Hc Hin]. cbn [fst snd] in *. subst c''.
  rewrite Forall_forall in Hk. destruct (Hk _ Hin) as [Hle Hne]. unfold key_le in Hle. cbn in Hle.
  assert (t <> t'') by congruence. lia.
Qed.

(** X8: in a constructed scenario every list of the index of tracks to
    predict, and so the list of every returned case, names its track ids in
    strictly increasing order, hence each once: the order of the grouping,
    not that of the rows in the file. *)
Theorem tracks_to_predict_ascending (root loc : string)
    (split : option string) (self : INTERACTIONScenario) :
  __init__ root loc split = Ok self ->
  (forall c l, _tracks_to_predict self !! c = Some l ->
               StronglySorted Z.lt l /\ NoDup l) /\
  (forall c case, get_case self c = Ok case ->
                  StronglySorted Z.lt (ic_tracks_to_predict case)).
Proof.
  intros Hinit.
  apply init_Ok_slots in Hinit as (_ & _ & _ & _ & _ & raw & _ & _ & Htp & _).
  rewrite Htp. split.
  - intros c l Hl. apply train_val_to_predict_sorted in Hl.
    split; [done|]. clear -Hl.
    induction Hl as [|t l Hl IH Ht]; constructor; [|done].
    intros Hin. rewrite Forall_forall in Ht. specialize (Ht _ Hin). lia.
  - intros c case Hg. apply get_case_Ok in Hg as (_ & _ & _ & Hl & _).
    rewrite Htp in Hl. by eapply train_val_to_predict_sorted.
Qed.

(** X16: when the rows of each track of the case come in strictly
    increasing timestamp order, every current track of the returned case
    holds exactly one motion state, the one of its agent at timestamp
    1000. *)
Theorem current_tracks_hold_one_state (self : INTERACTIONScenario) (c : Z)
    (case : INTERACTIONCase K) :
  (forall t,
     StronglySorted Z.lt
       (map timestamp_ms
          (rows_of_track t
             (filter (fun r => case_id r = c) (_frames self))))) ->
  get_case self c = Ok case ->
  forall tr, tr ∈ ic_current_tracks case ->
    exists ms, motion_states tr = [ms] /\
               ms_agent_id ms = agent_id tr /\ ms_timestamp_ms ms = 1000.
Proof.
  intros Hs Hg tr Htr. apply get_case_Ok in Hg as (_ & Hc & _).
  assert (track_invariant tr) as [Hids Hsorted].
  { eapply Forall_forall; [|exact Htr].
    eapply frame_tracks_invariant_per_track; [|exact Hc].
    intros t. rewrite rows_of_track_filter.
    by apply (StronglySorted_map_filter timestamp_ms). }
  assert (forall ms, ms ∈ motion_states tr -> ms_timestamp_ms ms = 1000)
    as Hts.
  { intros ms Hms.
    destruct (track_states_from_rows _ _ _ _ Hc Htr Hms) as (r & Hr & _ & ->).
    by apply list_elem_of_filter in Hr as [? _]. }
  pose proof (tracks_not_empty _ _ _ Hc Htr) as Hne.
  destruct (motion_states tr) as [|ms [|ms' rest]]; [done| |].
  - exists ms. split_and!; [done| |apply Hts; left].
    by apply Forall_cons in Hids as [? _].
  - exfalso. cbn [map] in Hsorted.
    apply StronglySorted_cons in Hsorted as [Hlt _].
    apply Forall_cons in Hlt as [Hlt _].
    rewrite (Hts ms), (Hts ms') in Hlt; [lia|right; left|left].
Qed.

(** *** Substrings and the split of a directory name *)

Lemma prefix_append (s1 s2 : string) :
  String.prefix s1 s2 = true <-> exists post, s2 = s1 +:+ post.
Proof.
  revert s1. induction s2 as [|b s2 IH]; intros s1; cbn [String.prefix].
  - destruct s1 as [|a s1]; split; try done.
    + intros _. by exists "".
    + intros [post Hpost]. discriminate.
  - destruct s1 as [|a s1].
    + split; [|done]. intros _. by exists (String b s2).
    + destruct (ascii_dec a b) as [->|Hne].
      * rewrite IH. split; intros [post Hpost]; exists post.
        -- cbn. by rewrite Hpost.
        -- cbn in Hpost. by injection Hpost.
      * split; [done|]. intros [post Hpost]. simpl in Hpost.
        injection Hpost as Hab _. by destruct Hne.
Qed.

Lemma contains_substring (sub s : string) :
  contains sub s = true <-> exists pre post, s = pre +:+ sub +:+ post.
Proof.
  split.
  - induction s as [|ch s IH]; cbn [contains];
      rewrite orb_true_iff; intros [Hp|Hc]; try done.
    + apply prefix_append in Hp as [post ->]. by exists "", post.
    + apply prefix_append in Hp as [post ->]. by exists "", post.
    + destruct (IH Hc) as (pre & post & ->). by exists (String ch pre), post.
  - intros (pre & post & ->). induction pre as [|ch pre IH].
    + assert (String.prefix sub ("" +:+ sub +:+ post) = true) as Hp
        by (apply prefix_append; by exists post).
      destruct ("" +:+ sub +:+ post); cbn [contains]; by rewrite Hp.
    + change (String ch pre +:+ sub +:+ post)
        with (String ch (pre +:+ sub +:+ post)).
      cbn [contains]. rewrite IH. apply orb_true_r.
Qed.

(** C6: with no split given, the split is read off the last part of the
    resolved root: it is "train" when that part has "train" somewhere
    inside, else "val" when it has "val", else "test" when it has "test",
    and construction goes on with that split; construction raises
    [ValueError] when the part has none of the three and [AssertionError]
    when a given split is not one of the three; an object that comes out of
    construction holds one of the three names: "train" or "val" as read off
    the last part, and the given split when one is given. *)
Theorem split_resolution (root loc seg : string) :
  last (Path_parts (Path_resolve root)) = Some seg ->
  let has w := exists pre post, seg = pre +:+ w +:+ post in
  (has "train" ->
     dereference_split root (Path_resolve root) = Ok "train" /\
     __init__ root loc None = _init_scenario (Path_resolve root) loc "train"
     /\ forall self, __init__ root loc None = Ok self -> _split self = "train")
  /\
  (~ has "train" -> has "val" ->
     dereference_split root (Path_resolve root) = Ok "val" /\
     __init__ root loc None = _init_scenario (Path_resolve root) loc "val"
     /\ forall self, __init__ root loc None = Ok self -> _split self = "val")
  /\
  (~ has "train" -> ~ has "val" -> has "test" ->
     dereference_split root (Path_resolve root) = Ok "test" /\
     __init__ root loc None = _init_scenario (Path_resolve root) loc "test")
  /\
  (~ has "train" -> ~ has "val" -> ~ has "test" ->
     __init__ root loc None
     = Raise (ValueError
                ("Unable to dereference split from " +:+ root +:+ ".")))
  /\
  (forall s, s ∉ ["train"; "val"; "test"] ->
     __init__ root loc (Some s)
     = Raise (AssertionError ("Invalid split " +:+ s +:+ ".")))
  /\
  (forall s, s ∈ ["train"; "val"; "test"] ->
     __init__ root loc (Some s) = _init_scenario (Path_resolve root) loc s /\
     forall self, __init__ root loc (Some s) = Ok self -> _split self = s)
  /\
  (forall split self,
     __init__ root loc split = Ok self ->
     _split self ∈ ["train"; "val"; "test"]).
Proof.
  intros Hseg has. unfold has. rewrite <- !contains_substring.
  rewrite !not_true_iff_false.
  assert (forall s self,
            _init_scenario (Path_resolve root) loc s = Ok self ->
            _split self = s) as Hsplit.
  { intros s self H. by apply init_scenario_Ok in H as (_ & ? & ? & _ & _ & ->). }
  unfold __init__, dereference_split. rewrite Hseg.
  split_and!.
  - intros ->. step. split_and!; [done..|]. apply Hsplit.
  - intros -> ->. step. split_and!; [done..|]. apply Hsplit.
  - by intros -> -> ->.
  - by intros -> -> ->.
  - intros s Hs. step. by rewrite decide_False.
  - intros s Hs. step. rewrite decide_True by done. split; [done|].
    apply Hsplit.
  - intros split self H.
    assert (__init__ root loc split = Ok self) as H'.
    { unfold __init__, dereference_split. by rewrite Hseg. }
    by apply init_Ok_slots in H' as (_ & _ & ? & _).
Qed.

(** X12: the split read off a directory name follows Python's substring
    test on the last part of the resolved root: it is "train" exactly when
    that part has "train" somewhere inside; "val" exactly when it has "val"
    but not "train"; "test" exactly when it has "test" but neither of the
    others; and the lookup fails exactly when it has none of the three. *)
Theorem split_follows_substrings (root seg : string) :
  last (Path_parts (Path_resolve root)) = Some seg ->
  let has w := exists pre post, seg = pre +:+ w +:+ post in
  (dereference_split root (Path_resolve root) = Ok "train" <-> has "train")
  /\
  (dereference_split root (Path_resolve root) = Ok "val" <->
   ~ has "train" /\ has "val") /\
  (dereference_split root (Path_resolve root) = Ok "test" <->
   ~ has "train" /\ ~ has "val" /\ has "test") /\
  ((exists e, dereference_split root (Path_resolve root) = Raise e) <->
   ~ has "train" /\ ~ has "val" /\ ~ has "test").
Proof.
  intros Hseg has. unfold has, dereference_split. rewrite Hseg.
  rewrite <- !contains_substring.
  destruct (contains "train" seg), (contains "val" seg),
    (contains "test" seg);
    split_and!; split; try done; try (intros [e ?]; done);
    try (intros (? & ? & ?); done); try (intros [? ?]; done);
    intros _; by eexists.
Qed.

(** X13: a directory named after a key of [SPLITS] always yields a split:
    "train" and "val" yield themselves and the four test variants yield
    "test", so construction in such a directory never fails on the split
    and, for "test", reads the [_obs.csv] file. *)
Theorem registered_splits_resolve (root loc key : string) :
  key ∈ SPLITS.*1 ->
  last (Path_parts (Path_resolve root)) = Some key ->
  exists s,
    dereference_split root (Path_resolve root) = Ok s /\
    s ∈ ["train"; "val"; "test"] /\
    (s = if String.prefix "test" key then "test" else key) /\
    __init__ root loc None = _init_scenario (Path_resolve root) loc s.
Proof.
  intros Hkey Hseg. unfold __init__, dereference_split. rewrite Hseg.
  cbn in Hkey. repeat (apply elem_of_cons in Hkey as [->|Hkey]);
    [..|by apply elem_of_nil in Hkey];
    eexists; (split; [by vm_compute|]);
    (split; [rewrite !elem_of_cons; tauto|]);
    (split; [by vm_compute|]);
    cbn [contains]; vm_compute (String.prefix _ _); cbn [orb];
    step; by rewrite decide_True by (rewrite !elem_of_cons; tauto).
Qed.

(** *** The track layer *)

Local Instance sort_le_total : Total sort_le.
Proof. intros r1 r2. unfold sort_le. lia. Qed.

Local Instance sort_le_trans : Transitive sort_le.
Proof. intros r1 r2 r3. unfold sort_le. lia. Qed.

Lemma sort_insert_Permutation (r : Row K) (l : list (Row K)) :
  sort_insert r l ≡ₚ r :: l.
Proof.
  induction l as [|y l IH]; cbn [sort_insert]; [done|].
  destruct (decide (sort_le r y)); [done|].
  rewrite IH. apply Permutation_swap.
Qed.

Lemma sort_values_Permutation (df : list (Row K)) : sort_values df ≡ₚ df.
Proof.
  induction df as [|r df IH]; [done|]. cbn [sort_values foldr].
  fold (sort_values df). by rewrite sort_insert_Permutation, IH.
Qed.

Lemma sort_insert_sorted (r : Row K) (l : list (Row K)) :
  StronglySorted sort_le l -> StronglySorted sort_le (sort_insert r l).
Proof.
  induction l as [|y l IH]; cbn [sort_insert].
  - intros _. by repeat constructor.
  - intros Hyl. pose proof Hyl as Hyl'.
    apply StronglySorted_cons in Hyl' as [Hy Hl].
    destruct (decide (sort_le r y)) as [Hry|Hry].
    + apply StronglySorted_cons. split; [|done].
      constructor; [done|]. eapply Forall_impl; [exact Hy|].
      intros z Hz. by transitivity y.
    + apply StronglySorted_cons. split; [|by apply IH].
      rewrite sort_insert_Permutation. constructor; [|done].
      by destruct (total sort_le r y).
Qed.

Lemma sort_values_sorted (df : list (Row K)) :
  StronglySorted sort_le (sort_values df).
Proof.
  induction df as [|r df IH]; [constructor|]. by apply sort_insert_sorted.
Qed.

Lemma sort_insert_stable (c t ts : Z) (r : Row K) (l : list (Row K)) :
  let P := fun r' : Row K => row_key r' = (c, t) /\ timestamp_ms r' = ts in
  filter P (sort_insert r l)
  = if decide (P r) then r :: filter P l else filter P l.
Proof.
  intros P. induction l as [|y l IH]; cbn [sort_insert].
  - by rewrite filter_cons, filter_nil.
  - destruct (decide (sort_le r y)) as [Hry|Hry].
    + by rewrite filter_cons.
    + rewrite !(filter_cons _ y), IH.
      destruct (decide (P r)) as [[Hk Hts]|]; [|done].
      destruct (decide (P y)) as [[Hk' Hts']|]; [|done]. exfalso.
      apply Hry. unfold sort_le, row_key in *. simplify_eq. lia.
Qed.

Lemma sort_values_stable (c t ts : Z) (df : list (Row K)) :
  filter (fun r => row_key r = (c, t) /\ timestamp_ms r = ts)
    (sort_values df)
  = filter (fun r => row_key r = (c, t) /\ timestamp_ms r = ts) df.
Proof.
  induction df as [|r df IH]; [done|]. cbn [sort_values foldr].
  fold (sort_values df). rewrite sort_insert_stable, filter_cons, IH. done.
Qed.

Lemma track_group_at_timestamp (df : list (Row K)) (c t ts : Z) :
  filter (fun r => timestamp_ms r = ts) (track_group df c t)
  = filter (fun r => row_key r = (c, t) /\ timestamp_ms r = ts) df.
Proof.
  unfold track_group. rewrite list_filter_filter.
  apply list_filter_iff. tauto.
Qed.

Lemma track_df_keys (df : list (Row K)) :
  map summary_key (track_df df)
  = merge_sort key_le (unique (map row_key (sort_values df))).
Proof.
  unfold track_df.
  assert (forall k,
            k ∈ merge_sort key_le (unique (map row_key (sort_values df))) ->
            k ∈ map row_key (sort_values df)) as Hsub
    by (intros k; by rewrite sorted_unique_elem_of).
  induction (merge_sort key_le (unique (map row_key (sort_values df))))
    as [|k L IH]; [done|].
  cbn [omap list_omap].
  destruct (head (filter (fun r => row_key r = k) (sort_values df)))
    as [r|] eqn:E.
  - cbn [mbind option_bind map]. rewrite IH.
    + unfold summary_key. cbn. by destruct k.
    + intros k' Hk'. apply Hsub. by right.
  - exfalso. apply head_None in E.
    assert (k ∈ map row_key (sort_values df)) as Hk by (apply Hsub; left).
    apply list_elem_of_fmap in Hk as (r & -> & Hr).
    assert (r ∈ filter (fun r' => row_key r' = row_key r) (sort_values df))
      as Hin by (by apply list_elem_of_filter).
    rewrite E in Hin. by apply elem_of_nil in Hin.
Qed.

(** X15: the track layer has one row per (case_id, track_id) of the table,
    in strictly increasing order of the pair; the row carries the least
    timestamp of its track and the agent type of the first row, in table
    order, that the track has at that timestamp. *)
Theorem track_layer_summarises_tracks (df : list (Row K)) :
  StronglySorted (fun k1 k2 => key_le k1 k2 /\ k1 <> k2)
    (map summary_key (track_df df)) /\
  (forall k, k ∈ map summary_key (track_df df) <-> k ∈ map row_key df) /\
  (forall s, s ∈ track_df df ->
     let g := track_group df (ts_case_id s) (ts_track_id s) in
     is_minimum (ts_timestamp_ms s) (map timestamp_ms g) /\
     exists r,
       head (filter (fun r => timestamp_ms r = ts_timestamp_ms s) g) = Some r
       /\ agent_type r = ts_agent_type s).
Proof.
  split_and!.
  - rewrite track_df_keys. apply StronglySorted_NoDup_strict;
      [apply StronglySorted_merge_sort; apply _|apply sorted_unique_NoDup].
  - intros k. rewrite track_df_keys, sorted_unique_elem_of.
    by rewrite sort_values_Permutation.
  - intros s Hs. unfold track_df in Hs.
    apply list_elem_of_omap in Hs as ([c t] & _ & Hs).
    destruct (head (filter (fun r => row_key r = (c, t)) (sort_values df)))
      as [r|] eqn:E; [|done].
    cbn [mbind option_bind fst snd] in Hs. injection Hs as <-.
    cbn [ts_case_id ts_track_id ts_timestamp_ms ts_agent_type].
    apply head_Some in E as [rest E].
    assert (r :: rest ≡ₚ track_group df c t) as Hperm.
    { rewrite <- E. unfold track_group. by rewrite sort_values_Permutation. }
    assert (StronglySorted sort_le (r :: rest)) as Hsorted.
    { rewrite <- E. eapply StronglySorted_sublist;
        [apply sublist_filter|apply sort_values_sorted]. }
    assert (row_key r = (c, t)) as Hkey.
    { assert (r ∈ filter (fun r => row_key r = (c, t)) (sort_values df))
        as Hin by (rewrite E; left).
      by apply list_elem_of_filter in Hin as [? _]. }
    split.
    + unfold is_minimum. rewrite <- Hperm. split; [left|].
      cbn [map]. constructor; [lia|].
      apply StronglySorted_cons in Hsorted as [Hle _].
      apply Forall_fmap, Forall_forall. intros y Hy. cbn.
      assert (row_key y = (c, t)) as Hy'.
      { assert (y ∈ filter (fun r => row_key r = (c, t)) (sort_values df))
          as Hin by (rewrite E; by right).
        by apply list_elem_of_filter in Hin as [? _]. }
      rewrite Forall_forall in Hle. specialize (Hle _ Hy).
      unfold sort_le, row_key in *. simplify_eq. lia.
    + exists r. split; [|done].
      rewrite track_group_at_timestamp, <- sort_values_stable.
      rewrite <- track_group_at_timestamp. unfold track_group.
      rewrite E, filter_cons. by rewrite decide_True.
Qed.

(** *** The order of the rows and the order of a track *)

Lemma StronglySorted_map_filter_le {A : Type} (f : A -> Z) (P : A -> Prop)
    `{forall x, Decision (P x)} (l : list A) :
  StronglySorted Z.le (map f l) -> StronglySorted Z.le (map f (filter P l)).
Proof.
  intros Hs. eapply StronglySorted_sublist; [|exact Hs].
  apply fmap_sublist, sublist_filter.
Qed.

Lemma no_repeated_state_filter (P : Row K -> Prop)
    `{forall r, Decision (P r)} (rows : TrackFrame K) :
  no_repeated_state rows -> no_repeated_state (filter P rows).
Proof.
  unfold no_repeated_state. intros Hnd.
  eapply sublist_NoDup; [exact Hnd|].
  apply fmap_sublist, sublist_filter.
Qed.

Lemma per_track_strict_order (rows : TrackFrame K) (t : Z) :
  StronglySorted Z.le (map timestamp_ms rows) ->
  no_repeated_state rows ->
  StronglySorted Z.lt (map timestamp_ms (rows_of_track t rows)).
Proof.
  unfold no_repeated_state, rows_of_track.
  induction rows as [|r rows IH]; [constructor|].
  cbn [map]. rewrite StronglySorted_cons, NoDup_cons.
  intros [Hle Hs] [Hr Hnd]. rewrite filter_cons.
  destruct (decide (track_id r = t)) as [Ht|Ht]; [|by apply IH].
  cbn [map]. apply StronglySorted_cons. split; [|by apply IH].
  apply Forall_forall. intros ts Hts.
  apply list_elem_of_fmap in Hts as (y & -> & Hy).
  apply list_elem_of_filter in Hy as [Hyt Hy].
  assert (timestamp_ms r <= timestamp_ms y) as Hle'.
  { eapply Forall_forall in Hle; [exact Hle|].
    apply list_elem_of_fmap. eauto. }
  assert (timestamp_ms r <> timestamp_ms y) as Hne; [|lia].
  intros Heq. apply Hr, list_elem_of_fmap. exists y.
  split; [|done]. by rewrite Ht, Hyt, Heq.
Qed.

Lemma frame_tracks_ordered (frame : TrackFrame K) tracks :
  StronglySorted Z.le (map timestamp_ms frame) ->
  get_tracks_from_frame frame = Ok tracks ->
  Forall track_ordered tracks.
Proof.
  intros Hs Htr. apply get_tracks_from_frame_Ok in Htr as [_ Hall].
  eapply Forall_impl; [exact Hall|]. intros tr [Hms _].
  unfold track_ordered. rewrite Hms. split.
  - apply Forall_forall. intros ms Hin.
    apply list_elem_of_fmap in Hin as (r & -> & Hr).
    by apply list_elem_of_filter in Hr as [Hr _].
  - rewrite <- list_fmap_compose.
    by apply (StronglySorted_map_filter_le timestamp_ms).
Qed.

(** C8 (as the code has it): when the rows of the case (of the frame) come
    in timestamp order, every track of the case served by [get_case], and
    every track that [get_tracks_from_frame] makes of the frame, carries one
    agent id on all its motion states and has timestamps that never
    decrease; they increase strictly when, in addition, no two rows of one
    track of the case (of the frame) carry the same timestamp.  The tracks
    of a case may share their timestamps. *)
Theorem produced_tracks_invariant (self : INTERACTIONScenario) (c : Z)
    (frame : TrackFrame K) :
  StronglySorted Z.le
    (map timestamp_ms (filter (fun r => case_id r = c) (_frames self))) ->
  StronglySorted Z.le (map timestamp_ms frame) ->
  (forall tracks,
     get_tracks_from_frame frame = Ok tracks ->
     Forall track_ordered tracks /\
     (no_repeated_state frame -> Forall track_invariant tracks))
  /\
  (forall case,
     get_case self c = Ok case ->
     let produced :=
       ic_history_tracks case ++ ic_current_tracks case
         ++ ic_futural_tracks case in
     Forall track_ordered produced /\
     (no_repeated_state (filter (fun r => case_id r = c) (_frames self)) ->
      Forall track_invariant produced)).
Proof.
  intros Hcase Hframe. split.
  - intros tracks Htr. split; [by eapply frame_tracks_ordered|].
    intros Hnd. eapply frame_tracks_invariant_per_track; [|exact Htr].
    intros t. by apply per_track_strict_order.
  - intros case Hg produced. unfold produced.
    apply get_case_Ok in Hg as (Hh & Hc & Hf & _). split.
    + rewrite !Forall_app.
      split_and!; (eapply frame_tracks_ordered; [|eassumption]);
        by apply (StronglySorted_map_filter_le timestamp_ms).
    + intros Hnd. rewrite !Forall_app.
      split_and!;
        (eapply frame_tracks_invariant_per_track; [|eassumption]);
        intros t;
        (apply per_track_strict_order;
         [by apply (StronglySorted_map_filter_le timestamp_ms)
         |by apply no_repeated_state_filter]).
Qed.

End Scenario.


(** ** The class on the sample installation *)

Module SampleRun.

Abbreviation scenario := (@INTERACTIONScenario unit Sample.Path).

Definition init : string -> string -> option string -> result scenario :=
  __init__ Sample.deserialize Sample.AgentType_value Sample.Path
    Sample.Path_resolve Sample.Path_parts Sample.Path_joinpath
    Sample.Path_str Sample.read_csv.

Definition get_case : scenario -> Z -> result (INTERACTIONCase unit) :=
  get_case Sample.deserialize Sample.Path.

Definition get_tracks_from_frame
    : list (Row unit) -> result (list (Track unit)) :=
  get_tracks_from_frame Sample.deserialize.

Definition track_file : scenario -> string :=
  @track_file unit Sample.Path Sample.Path_joinpath Sample.Path_str.

Definition render : scenario -> Z -> unit -> result unit :=
  render Sample.deserialize Sample.Path unit unit Sample.case_render.

Definition unbuilt : scenario := mkScenario Sample.Path "" [] [] "" ∅ ∅ 0.

(** The objects that construction returns for the train and the val
    directory. *)
Definition train_scenario : scenario :=
  Eval vm_compute in
    match init "/data/train" "DR_USA_Roundabout_FT" None with
    | Ok self => self
    | Raise _ => unbuilt
    end.

Definition val_scenario : scenario :=
  Eval vm_compute in
    match init "/data/val" "DR_USA_Roundabout_FT" None with
    | Ok self => self
    | Raise _ => unbuilt
    end.

End SampleRun.

(** ** Two more train files *)

Module SampleOrder.

(** A train file whose rows come in timestamp order, with two tracks that
    share their timestamps. *)
Definition interleaved_table : list (Row unit) :=
  [ Sample.row 1 7 100 "car" 0 0;
    Sample.row 1 8 100 "pedestrian/bicycle" 0 0;
    Sample.row 1 7 1000 "car" 0 0;
    Sample.row 1 8 1000 "pedestrian/bicycle" 0 0;
    Sample.row 1 7 4000 "car" 0 0;
    Sample.row 1 8 4000 "pedestrian/bicycle" 0 0 ].

(** A train file whose rows come in timestamp order and that lists one row
    twice. *)
Definition repeated_table : list (Row unit) :=
  [ Sample.row 1 5 100 "car" 0 0; Sample.row 1 5 100 "car" 0 0;
    Sample.row 1 5 1000 "car" 0 0; Sample.row 1 5 4000 "car" 0 0 ].

Definition read_table (table : list (Row unit)) (path : string)
    : result (list (Row unit)) :=
  if decide (path = "/data/train/DR_USA_Roundabout_FT_train.csv") then
    Ok table
  else Raise (OSError ("No such file or directory: " +:+ path)).

Definition init (table : list (Row unit))
    : string -> string -> option string -> result SampleRun.scenario :=
  __init__ Sample.deserialize Sample.AgentType_value Sample.Path
    Sample.Path_resolve Sample.Path_parts Sample.Path_joinpath
    Sample.Path_str (read_table table).

Definition interleaved_scenario : SampleRun.scenario :=
  Eval vm_compute in
    match init interleaved_table "/data/train" "DR_USA_Roundabout_FT" None with
    | Ok self => self
    | Raise _ => SampleRun.unbuilt
    end.

Definition repeated_scenario : SampleRun.scenario :=
  Eval vm_compute in
    match init repeated_table "/data/train" "DR_USA_Roundabout_FT" None with
    | Ok self => self
    | Raise _ => SampleRun.unbuilt
    end.

End SampleOrder.

Lemma sample_value_injective : value_injective Sample.AgentType_value.
Proof. by intros [] []. Qed.

Lemma sample_decoded_cells_decode : decoded_cells_decode Sample.deserialize.
Proof. by intros a. Qed.

Lemma sample_train_init :
  SampleRun.init "/data/train" "DR_USA_Roundabout_FT" None
  = Ok SampleRun.train_scenario.
Proof. by vm_compute. Qed.

Lemma sample_val_init :
  SampleRun.init "/data/val" "DR_USA_Roundabout_FT" None
  = Ok SampleRun.val_scenario.
Proof. by vm_compute. Qed.

Example sample_train_file :
  SampleRun.track_file SampleRun.train_scenario
  = "/data/train/DR_USA_Roundabout_FT_train.csv".
Proof. by vm_compute. Qed.

Example sample_val_case_1 :
  SampleRun.get_case SampleRun.val_scenario 1
  = Ok (mkCase "DR_USA_Roundabout_FT" 1
          [mkTrack 7 CAR [mkMotionState 7 100 tt; mkMotionState 7 1000 tt]]
          [mkTrack 7 CAR [mkMotionState 7 1000 tt]]
          [mkTrack 7 CAR [mkMotionState 7 4000 tt]]
          [7] []).
Proof. by vm_compute. Qed.


Example sample_val_case_2 :
  SampleRun.get_case SampleRun.val_scenario 2 = Raise (KeyError 2).
Proof. by vm_compute. Qed.

(** A frame that repeats a row is in non-decreasing timestamp order, and its
    track repeats the timestamp: the strict order of a track needs the
    strict order of the rows. *)
Example repeated_rows_repeat_timestamps :
  SampleRun.get_tracks_from_frame Sample.repeated_frame
  = Ok [mkTrack 5 CAR [mkMotionState 5 100 tt; mkMotionState 5 100 tt]].
Proof. by vm_compute. Qed.

(** *** Instances of the theorems *)

Lemma time_windows_partition_witness :
  1 ∈ map case_id (_frames Sample.Path SampleRun.val_scenario) /\
  exists rows history current futural : list (Row unit),
    loc_case (_frames Sample.Path SampleRun.val_scenario) 1 = Ok rows /\
    _get_history Sample.Path SampleRun.val_scenario 1 = Ok history /\
    _get_current Sample.Path SampleRun.val_scenario 1 = Ok current /\
    _get_futural Sample.Path SampleRun.val_scenario 1 = Ok futural /\
    current `sublist_of` history /\
    filter (fun r => timestamp_ms r <> 1000) history ++ current ++ futural
      ≡ₚ rows.
Proof.
  assert (1 ∈ map case_id (_frames Sample.Path SampleRun.val_scenario))
    as Hin by (apply (bool_decide_unpack _); vm_compute; exact I).
  split; [exact Hin|].
  destruct (time_windows_partition Sample.Path SampleRun.val_scenario 1 Hin)
    as (rows & h & cu & fu & Hloc & _ & Hh & Hc & Hf & _ & _ & _ & _ & _ & _
        & Hsub & _ & Hperm).
  exists rows, h, cu, fu. repeat split; assumption.
Defined.

Lemma get_tracks_from_frame_reshape_witness :
  Forall (fun r => is_Some (row_type Sample.deserialize r))
    Sample.retyped_frame /\
  exists tracks,
    SampleRun.get_tracks_from_frame Sample.retyped_frame = Ok tracks /\
    map agent_id tracks = unique (map track_id Sample.retyped_frame) /\
    forall tr, tr ∈ tracks ->
      motion_states tr
      = map to_motion_state (rows_of_track (agent_id tr) Sample.retyped_frame)
      /\
      exists r,
        last (rows_of_track (agent_id tr) Sample.retyped_frame) = Some r /\
        Sample.deserialize (agent_type r) = Ok (type tr).
Proof.
  assert (Forall (fun r => is_Some (row_type Sample.deserialize r))
            Sample.retyped_frame) as Hd
    by (repeat constructor; vm_compute; eexists; reflexivity).
  split; [exact Hd|].
  destruct (get_tracks_from_frame_reshape Sample.deserialize
              Sample.retyped_frame Hd)
    as (_ & tracks & Htr & Hids & _ & _ & Hall).
  exists tracks. repeat split; try assumption; apply Hall; assumption.
Defined.

(** The claim of C2 on the agent type fails: track 7 is first seen as a car,
    and the track that comes out is a pedestrian/bicycle. *)
Lemma agent_type_is_not_first_seen :
  SampleRun.get_tracks_from_frame Sample.retyped_frame
  = Ok [mkTrack 7 PEDESTRIAN_BICYCLE
          [mkMotionState 7 100 tt; mkMotionState 7 200 tt]] /\
  head (rows_of_track 7 Sample.retyped_frame) ≫= row_type Sample.deserialize
  = Some CAR.
Proof. by vm_compute. Qed.

Lemma produced_tracks_invariant_witness :
  SampleOrder.init SampleOrder.interleaved_table
    "/data/train" "DR_USA_Roundabout_FT" None
  = Ok SampleOrder.interleaved_scenario /\
  exists tracks case,
    SampleRun.get_tracks_from_frame SampleOrder.interleaved_table = Ok tracks
    /\
    SampleRun.get_case SampleOrder.interleaved_scenario 1 = Ok case /\
    map agent_id tracks = [7; 8] /\
    map agent_id (ic_history_tracks case) = [7; 8] /\
    Forall track_invariant tracks /\
    Forall track_invariant
      (ic_history_tracks case ++ ic_current_tracks case
         ++ ic_futural_tracks case).
Proof.
  split; [by vm_compute|].
  destruct (produced_tracks_invariant Sample.deserialize Sample.Path
              SampleOrder.interleaved_scenario 1
              SampleOrder.interleaved_table)
    as [Hframe Hcase];
    [vm_compute; repeat first [constructor | discriminate]..|].
  eexists _, _. split; [by vm_compute|]. split; [by vm_compute|].
  split; [by vm_compute|]. split; [by vm_compute|]. split.
  - apply Hframe; [by vm_compute|].
    apply (bool_decide_unpack _). vm_compute. exact I.
  - apply Hcase; [by vm_compute|].
    apply (bool_decide_unpack _). vm_compute. exact I.
Defined.

(** The claim of C8 on the timestamps fails: a train file lists the rows of
    its one case in timestamp order and repeats the first row; construction
    succeeds, and the history track that [get_case] returns holds the
    timestamp 100 twice.  The same happens for a frame handed to
    [get_tracks_from_frame]. *)
Lemma repeated_rows_break_strict_order :
  SampleOrder.init SampleOrder.repeated_table
    "/data/train" "DR_USA_Roundabout_FT" None
  = Ok SampleOrder.repeated_scenario /\
  StronglySorted Z.le
    (map timestamp_ms
       (filter (fun r => case_id r = 1)
          (_frames Sample.Path SampleOrder.repeated_scenario))) /\
  (exists case,
     SampleRun.get_case SampleOrder.repeated_scenario 1 = Ok case /\
     ic_history_tracks case
     = [mkTrack 5 CAR [mkMotionState 5 100 tt; mkMotionState 5 100 tt;
                       mkMotionState 5 1000 tt]] /\
     ~ Forall track_invariant (ic_history_tracks case)) /\
  StronglySorted Z.le (map timestamp_ms Sample.repeated_frame) /\
  (exists tracks,
     SampleRun.get_tracks_from_frame Sample.repeated_frame = Ok tracks /\
     ~ Forall track_invariant tracks).
Proof.
  split; [by vm_compute|].
  split; [vm_compute; repeat first [constructor | discriminate]|].
  split.
  { eexists. split; [by vm_compute|]. split; [by vm_compute|].
    cbn [ic_history_tracks]. intros H.
    apply Forall_cons in H as [[_ H] _]. cbn in H.
    apply StronglySorted_cons in H as [H _].
    apply Forall_cons in H as [H _]. lia. }
  split; [vm_compute; repeat first [constructor | discriminate]|].
  eexists. split; [by vm_compute|]. intros H.
  apply Forall_cons in H as [[_ H] _]. cbn in H.
  apply StronglySorted_cons in H as [H _].
  apply Forall_cons in H as [H _]. lia.
Qed.

Lemma split_resolution_witness :
  last (Sample.Path_parts (Sample.Path_resolve "/data/train")) = Some "train"
  /\
  (exists pre post, "train" = pre +:+ "train" +:+ post) /\
  SampleRun.init "/data/train" "DR_USA_Roundabout_FT" None
  = Ok SampleRun.train_scenario /\
  _split Sample.Path SampleRun.train_scenario = "train" /\
  SampleRun.init "/data/train" "DR_USA_Roundabout_FT" (Some "dev")
  = Raise (AssertionError "Invalid split dev.") /\
  last (Sample.Path_parts (Sample.Path_resolve "/data/val")) = Some "val" /\
  ~ (exists pre post, "val" = pre +:+ "train" +:+ post) /\
  SampleRun.init "/data/val" "DR_USA_Roundabout_FT" None
  = Ok SampleRun.val_scenario /\
  _split Sample.Path SampleRun.val_scenario = "val" /\
  last (Sample.Path_parts (Sample.Path_resolve "/data/raw")) = Some "raw" /\
  SampleRun.init "/data/raw" "DR_USA_Roundabout_FT" None
  = Raise (ValueError "Unable to dereference split from /data/raw.").
Proof.
  assert (last (Sample.Path_parts (Sample.Path_resolve "/data/train"))
          = Some "train") as Htrain by reflexivity.
  assert (last (Sample.Path_parts (Sample.Path_resolve "/data/val"))
          = Some "val") as Hval by reflexivity.
  assert (last (Sample.Path_parts (Sample.Path_resolve "/data/raw"))
          = Some "raw") as Hraw by reflexivity.
  assert (exists pre post, "train" = pre +:+ "train" +:+ post) as Hin
    by (by exists "", "").
  assert (forall w seg, contains w seg = false ->
                        ~ exists pre post, seg = pre +:+ w +:+ post) as Hout.
  { intros w seg Hc Hs. apply contains_substring in Hs. congruence. }
  destruct (split_resolution Sample.deserialize Sample.AgentType_value
              Sample.Path Sample.Path_resolve Sample.Path_parts
              Sample.Path_joinpath Sample.Path_str Sample.read_csv
              "/data/train" "DR_USA_Roundabout_FT" "train" Htrain)
    as (Ht & _ & _ & _ & Hbad & _).
  destruct (split_resolution Sample.deserialize Sample.AgentType_value
              Sample.Path Sample.Path_resolve Sample.Path_parts
              Sample.Path_joinpath Sample.Path_str Sample.read_csv
              "/data/val" "DR_USA_Roundabout_FT" "val" Hval)
    as (_ & Hv & _).
  destruct (split_resolution Sample.deserialize Sample.AgentType_value
              Sample.Path Sample.Path_resolve Sample.Path_parts
              Sample.Path_joinpath Sample.Path_str Sample.read_csv
              "/data/raw" "DR_USA_Roundabout_FT" "raw" Hraw)
    as (_ & _ & _ & Hnone & _).
  split_and!.
  - exact Htrain.
  - exact Hin.
  - exact sample_train_init.
  - destruct (Ht Hin) as (_ & _ & Hs). apply Hs. exact sample_train_init.
  - apply Hbad. apply (bool_decide_unpack _). vm_compute. exact I.
  - exact Hval.
  - apply Hout. reflexivity.
  - exact sample_val_init.
  - destruct (Hv (Hout "train" "val" eq_refl)) as (_ & _ & Hs).
    + by exists "", "".
    + apply Hs. exact sample_val_init.
  - exact Hraw.
  - apply Hnone; apply Hout; reflexivity.
Defined.

Lemma indexing_and_length_witness :
  (forall c,
     __getitem__ Sample.deserialize Sample.Path SampleRun.train_scenario c
     = SampleRun.get_case SampleRun.train_scenario c) /\
  __len__ Sample.Path SampleRun.train_scenario
  = num_cases Sample.Path SampleRun.train_scenario /\
  exists raw,
    Sample.read_csv (SampleRun.track_file SampleRun.train_scenario) = Ok raw
    /\
    num_cases Sample.Path SampleRun.train_scenario
    = Z.of_nat (size (list_to_set (map case_id raw) : gset Z)).
Proof.
  exact (indexing_and_length Sample.deserialize Sample.AgentType_value
           Sample.Path Sample.Path_resolve Sample.Path_parts
           Sample.Path_joinpath Sample.Path_str Sample.read_csv
           "/data/train" "DR_USA_Roundabout_FT" None SampleRun.train_scenario
           sample_train_init).
Defined.

Lemma sample_val_read :
  Sample.read_csv (SampleRun.track_file SampleRun.val_scenario)
  = Ok Sample.val_table.
Proof. by vm_compute. Qed.

Lemma sample_train_read :
  Sample.read_csv (SampleRun.track_file SampleRun.train_scenario)
  = Ok Sample.train_table.
Proof. by vm_compute. Qed.

Lemma train_val_tracks_to_predict_witness :
  _tracks_to_predict Sample.Path SampleRun.train_scenario !! 1 = Some [7] /\
  map timestamp_ms
    (filter (fun r => case_id r = 1 /\ track_id r = 7) Sample.train_table)
  = [100; 1000; 4000] /\
  (exists l,
     _tracks_to_predict Sample.Path SampleRun.train_scenario !! 1 = Some l /\
     7 ∈ l) /\
  map timestamp_ms
    (filter (fun r => case_id r = 1 /\ track_id r = 8) Sample.train_table)
  = [100; 4000] /\
  (forall l,
     _tracks_to_predict Sample.Path SampleRun.train_scenario !! 1 = Some l ->
     8 ∉ l).
Proof.
  pose proof (fun t =>
    train_val_tracks_to_predict Sample.deserialize
      Sample.AgentType_value Sample.Path Sample.Path_resolve
      Sample.Path_parts Sample.Path_joinpath Sample.Path_str
      Sample.read_csv "/data/train" "DR_USA_Roundabout_FT" None
      SampleRun.train_scenario Sample.train_table 1 t
      sample_value_injective sample_train_init sample_train_read) as H.
  split; [by vm_compute|]. split; [by vm_compute|]. split.
  - destruct (H 7) as (_ & Hiff & _). apply Hiff.
    assert (filter (fun r => case_id r = 1 /\ track_id r = 7)
              Sample.train_table
            = [Sample.row 1 7 100 "car" 0 0; Sample.row 1 7 1000 "car" 0 0;
               Sample.row 1 7 4000 "car" 0 0]) as -> by (by vm_compute).
    split_and!.
    + split; [left|]. repeat constructor; cbn; lia.
    + split; [right; right; left|]. repeat constructor; cbn; lia.
    + eexists. split; reflexivity.
  - split; [by vm_compute|].
    destruct (H 8) as (_ & _ & Hped). intros l.
    by apply (Hped (Sample.row 1 8 100 "pedestrian/bicycle" 0 0)).
Defined.

Lemma index_keys_and_key_error_witness :
  ~ (exists t, to_be_predicted Sample.deserialize Sample.val_table 2 t) /\
  SampleRun.get_case SampleRun.val_scenario 2 = Raise (KeyError 2) /\
  to_be_predicted Sample.deserialize Sample.val_table 1 7 /\
  is_Some (_tracks_to_predict Sample.Path SampleRun.val_scenario !! 1) /\
  exists case,
    SampleRun.get_case SampleRun.val_scenario 1 = Ok case /\
    ic_tracks_to_predict case <> [].
Proof.
  destruct (index_keys_and_key_error Sample.deserialize
              Sample.AgentType_value
              Sample.Path Sample.Path_resolve Sample.Path_parts
              Sample.Path_joinpath Sample.Path_str Sample.read_csv
              "/data/val" "DR_USA_Roundabout_FT" None SampleRun.val_scenario
              Sample.val_table sample_value_injective
              sample_decoded_cells_decode sample_val_init sample_val_read)
    as (_ & Hkeys & Hnone & Hsome).
  assert (~ (exists t, to_be_predicted Sample.deserialize Sample.val_table 2 t))
    as Hno.
  { intros (t & _ & [Hmax _] & _).
    apply list_elem_of_fmap in Hmax as (r & Hts & Hr).
    apply list_elem_of_filter in Hr as [[Hc _] Hr].
    repeat (apply elem_of_cons in Hr as [->|Hr]);
      try (by apply elem_of_nil in Hr); by vm_compute in *. }
  assert (to_be_predicted Sample.deserialize Sample.val_table 1 7) as Hyes.
  { unfold to_be_predicted.
    assert (filter (fun r => case_id r = 1 /\ track_id r = 7)
              Sample.val_table
            = [Sample.row 1 7 100 "car" 0 0; Sample.row 1 7 1000 "car" 0 0;
               Sample.row 1 7 4000 "car" 0 0]) as -> by (by vm_compute).
    cbn zeta. split_and!.
    - split; [left|]. repeat constructor; cbn; lia.
    - split; [right; right; left|]. repeat constructor; cbn; lia.
    - eexists. split; reflexivity. }
  split_and!.
  - exact Hno.
  - by apply Hnone.
  - exact Hyes.
  - apply Hkeys. by exists 7.
  - apply Hsome. by exists 7.
Defined.

(** C10: on the test split the claim cannot be observed.  Case 2 of the
    test file has no flagged row, and construction in the test directory
    stops with [AttributeError], so there is no index of interesting agents
    and no object on which [get_case 2] could raise [KeyError]. *)
Lemma test_split_builds_no_index :
  2 ∈ map case_id Sample.test_table /\
  (forall r, r ∈ Sample.test_table -> case_id r = 2 ->
             interesting_agent r <> 1 /\ tracks_to_predict r <> 1) /\
  SampleRun.init "/data/test" "DR_USA_Roundabout_FT" None
  = Raise (AttributeError "'dict' object has no attribute 'to_dict'").
Proof.
  split_and!.
  - apply (bool_decide_unpack _). by vm_compute.
  - intros r Hr Hc.
    repeat (apply elem_of_cons in Hr as [->|Hr]);
      try (by apply elem_of_nil in Hr); by vm_compute in *.
  - by vm_compute.
Qed.

Lemma range_check_in_render_witness :
  2 >= num_cases Sample.Path SampleRun.train_scenario /\
  SampleRun.render SampleRun.train_scenario 2 tt
  = Raise (ValueError "Invalid case_id 2 for scenario DR_USA_Roundabout_FT.")
  /\
  (forall msg,
     SampleRun.get_case SampleRun.train_scenario 2 <> Raise (ValueError msg))
  /\
  (SampleRun.get_case SampleRun.train_scenario 2 = Raise (KeyError 2) \/
   exists case, SampleRun.get_case SampleRun.train_scenario 2 = Ok case).
Proof.
  assert (2 >= num_cases Sample.Path SampleRun.train_scenario) as Hc
    by (vm_compute; discriminate).
  destruct (range_check_in_render Sample.deserialize Sample.AgentType_value
              Sample.Path Sample.Path_resolve Sample.Path_parts
              Sample.Path_joinpath Sample.Path_str Sample.read_csv
              unit unit Sample.case_render
              "/data/train" "DR_USA_Roundabout_FT" None
              SampleRun.train_scenario 2 tt
              sample_decoded_cells_decode sample_train_init)
    as (Hrender & _ & Hno & Hres).
  split; [exact Hc|]. split; [exact (Hrender Hc)|]. split; assumption.
Defined.

(** The claim of C1 fails: the train file has two cases, numbered 1 and 2,
    and [get_case 2], with [2 >= num_cases], returns the case. *)
Lemma get_case_makes_no_range_check :
  num_cases Sample.Path SampleRun.train_scenario = 2 /\
  SampleRun.get_case SampleRun.train_scenario 2
  = Ok (mkCase "DR_USA_Roundabout_FT" 2
          [mkTrack 3 CAR [mkMotionState 3 100 tt]]
          []
          [mkTrack 3 CAR [mkMotionState 3 1100 tt; mkMotionState 3 4000 tt]]
          [3] []).
Proof. by vm_compute. Qed.

Lemma test_split_construction_raises_witness :
  SampleRun.init "/data/test" "DR_USA_Roundabout_FT" (Some "test")
  = Raise (AttributeError "'dict' object has no attribute 'to_dict'") /\
  forall self,
    SampleRun.init "/data/test" "DR_USA_Roundabout_FT" (Some "test")
    <> Ok self.
Proof.
  eapply (test_split_construction_raises Sample.deserialize
            Sample.AgentType_value Sample.Path Sample.Path_resolve
            Sample.Path_parts Sample.Path_joinpath Sample.Path_str
            Sample.read_csv "/data/test" "DR_USA_Roundabout_FT"
            Sample.test_table);
    vm_compute; reflexivity.
Defined.

Lemma per_track_order_suffices_witness :
  exists case,
    SampleRun.get_case SampleRun.train_scenario 1 = Ok case /\
    Forall track_invariant (ic_history_tracks case) /\
    Forall track_invariant (ic_current_tracks case) /\
    Forall track_invariant (ic_futural_tracks case).
Proof.
  eexists. split; [by vm_compute|].
  apply (per_track_order_suffices Sample.deserialize Sample.Path
           SampleRun.train_scenario 1); [|by vm_compute].
  intros t.
  replace (filter (fun r => case_id r = 1)
             (_frames Sample.Path SampleRun.train_scenario))
    with [mkRow 1 7 100 (Decoded CAR) tt 0 0;
          mkRow 1 7 1000 (Decoded CAR) tt 0 0;
          mkRow 1 7 4000 (Decoded CAR) tt 0 0;
          mkRow 1 8 100 (Decoded PEDESTRIAN_BICYCLE) tt 0 0;
          mkRow 1 8 4000 (Decoded PEDESTRIAN_BICYCLE) tt 0 0]
    by (by vm_compute).
  unfold rows_of_track. rewrite !filter_cons, filter_nil.
  repeat case_decide; simplify_eq/=; repeat constructor; lia.
Defined.

(** ** The dataset utilities *)

(** X14: the two tables of the utilities agree: no location and no split
    name is listed twice; every split lists its locations in the order of
    [LOCATIONS], so each is a known location and none is repeated; every
    location belongs to some split; "val" has the locations of "train", the
    single-agent test splits those of their multi-agent counterparts, and
    the conditional test splits are part of the plain ones. *)
Theorem registry_is_consistent :
  NoDup LOCATIONS /\
  NoDup SPLITS.*1 /\
  (forall key locs, (key, locs) ∈ SPLITS -> locs `sublist_of` LOCATIONS) /\
  (forall loc, loc ∈ LOCATIONS ->
     exists key locs, (key, locs) ∈ SPLITS /\ loc ∈ locs) /\
  splits_getitem "val" = splits_getitem "train" /\
  splits_getitem "test_single-agent" = splits_getitem "test_multi-agent" /\
  splits_getitem "test_conditional-multi-agent"
  = splits_getitem "test_conditional-single-agent" /\
  (forall cond plain,
     splits_getitem "test_conditional-single-agent" = Some cond ->
     splits_getitem "test_multi-agent" = Some plain ->
     cond `sublist_of` plain).
Proof.
  split_and!.
  - apply (bool_decide_unpack _). by vm_compute.
  - apply (bool_decide_unpack _). by vm_compute.
  - intros key locs Hin.
    repeat (apply elem_of_cons in Hin as [[= -> ->]|Hin]);
      [..|by apply elem_of_nil in Hin];
      unfold LOCATIONS;
      repeat first [apply sublist_nil | apply sublist_skip
                   | apply sublist_cons].
  - intros loc Hloc.
    repeat (apply elem_of_cons in Hloc as [->|Hloc]);
      [..|by apply elem_of_nil in Hloc];
      first
        [ exists "train"; eexists; split; [left|];
          apply (bool_decide_unpack _); by vm_compute
        | exists "test_multi-agent"; eexists; split; [right; right; left|];
          apply (bool_decide_unpack _); by vm_compute ].
  - by vm_compute.
  - by vm_compute.
  - by vm_compute.
  - intros cond plain [= <-] [= <-].
    repeat first [apply sublist_nil | apply sublist_skip
                 | apply sublist_cons].
Qed.

(** *** Further instances *)

Example undecodable_frame_raises :
  SampleRun.get_tracks_from_frame Sample.undecodable_frame
  = Raise (ValueError "Unknown agent type truck.").
Proof. by vm_compute. Qed.

Example shuffled_track_layer :
  track_df Sample.shuffled_table
  = [mkTrackSummary 1 8 200 (Decoded PEDESTRIAN_BICYCLE);
     mkTrackSummary 2 3 100 (Decoded CAR)].
Proof. by vm_compute. Qed.

Lemma absent_case_raises_KeyError_witness :
  (0 ∉ map case_id (_frames Sample.Path SampleRun.val_scenario)) /\
  0 < num_cases Sample.Path SampleRun.val_scenario /\
  SampleRun.get_case SampleRun.val_scenario 0 = Raise (KeyError 0) /\
  SampleRun.render SampleRun.val_scenario 0 tt = Raise (KeyError 0).
Proof.
  assert (0 ∉ map case_id (_frames Sample.Path SampleRun.val_scenario))
    as Hc by (apply (bool_decide_unpack _); by vm_compute).
  assert (0 < num_cases Sample.Path SampleRun.val_scenario) as Hlt
    by (by vm_compute).
  destruct (absent_case_raises_KeyError Sample.deserialize Sample.Path
              unit unit Sample.case_render SampleRun.val_scenario 0 tt Hc)
    as (Hget & _ & Hrender).
  split; [exact Hc|]. split; [exact Hlt|]. split; [exact Hget|].
  exact (Hrender Hlt).
Defined.

Lemma case_tracks_respect_windows_witness :
  exists case,
    SampleRun.get_case SampleRun.val_scenario 1 = Ok case /\
    (forall tr ms, ms ∈ motion_states tr ->
       (tr ∈ ic_history_tracks case -> ms_timestamp_ms ms <= 1000) /\
       (tr ∈ ic_current_tracks case -> ms_timestamp_ms ms = 1000) /\
       (tr ∈ ic_futural_tracks case -> ms_timestamp_ms ms > 1000)) /\
    (forall tr, tr ∈ ic_current_tracks case ->
       exists tr', tr' ∈ ic_history_tracks case /\
                   agent_id tr' = agent_id tr).
Proof.
  eexists. split; [by vm_compute|].
  edestruct (case_tracks_respect_windows Sample.deserialize Sample.Path
               SampleRun.val_scenario 1) as (Hts & _ & Hcur & _);
    [by vm_compute|].
  split; [exact Hts|exact Hcur].
Defined.

Lemma reshape_keeps_every_row_witness :
  exists tracks,
    SampleRun.get_tracks_from_frame Sample.train_table = Ok tracks /\
    concat (map motion_states tracks)
      ≡ₚ map to_motion_state Sample.train_table /\
    length (concat (map motion_states tracks)) = length Sample.train_table.
Proof.
  eexists. split; [by vm_compute|].
  apply (reshape_keeps_every_row Sample.deserialize Sample.train_table).
  by vm_compute.
Defined.

Lemma predicted_tracks_span_the_case_witness :
  exists case,
    SampleRun.get_case SampleRun.val_scenario 1 = Ok case /\
    7 ∈ ic_tracks_to_predict case /\
    (exists tr ms, tr ∈ ic_history_tracks case /\ agent_id tr = 7 /\
                   ms ∈ motion_states tr /\ ms_timestamp_ms ms = 100) /\
    (exists tr ms, tr ∈ ic_futural_tracks case /\ agent_id tr = 7 /\
                   ms ∈ motion_states tr /\ ms_timestamp_ms ms = 4000).
Proof.
  destruct (SampleRun.get_case SampleRun.val_scenario 1) as [case|e] eqn:E;
    [|by vm_compute in E].
  exists case. split; [reflexivity|].
  assert (7 ∈ ic_tracks_to_predict case) as Hin.
  { pose proof E as E'. vm_compute in E'. injection E' as <-. left. }
  split; [exact Hin|].
  destruct (predicted_tracks_span_the_case Sample.deserialize
              Sample.AgentType_value Sample.Path Sample.Path_resolve
              Sample.Path_parts Sample.Path_joinpath Sample.Path_str
              Sample.read_csv "/data/val" "DR_USA_Roundabout_FT" None
              SampleRun.val_scenario 1 case 7 sample_val_init E Hin)
    as (Hh & Hf & _).
  split; [exact Hh|exact Hf].
Defined.

Lemma tracks_to_predict_ascending_witness :
  (forall c l,
     _tracks_to_predict Sample.Path SampleRun.train_scenario !! c = Some l ->
     StronglySorted Z.lt l /\ NoDup l) /\
  (forall c case,
     SampleRun.get_case SampleRun.train_scenario c = Ok case ->
     StronglySorted Z.lt (ic_tracks_to_predict case)).
Proof.
  exact (tracks_to_predict_ascending Sample.deserialize
           Sample.AgentType_value Sample.Path Sample.Path_resolve
           Sample.Path_parts Sample.Path_joinpath Sample.Path_str
           Sample.read_csv "/data/train" "DR_USA_Roundabout_FT" None
           SampleRun.train_scenario sample_train_init).
Defined.

Lemma derived_slots_bounds_witness :
  (0 <= num_cases Sample.Path SampleRun.train_scenario
     <= Z.of_nat (length (_frames Sample.Path SampleRun.train_scenario))) /\
  (num_cases Sample.Path SampleRun.train_scenario = 0 <->
   _frames Sample.Path SampleRun.train_scenario = []) /\
  Z.of_nat (size (_interesting_agents Sample.Path SampleRun.train_scenario))
  = num_cases Sample.Path SampleRun.train_scenario /\
  (forall c l,
     _interesting_agents Sample.Path SampleRun.train_scenario !! c = Some l ->
     l = [] /\
     c ∈ map case_id (_frames Sample.Path SampleRun.train_scenario)) /\
  dom (_tracks_to_predict Sample.Path SampleRun.train_scenario)
    ⊆ dom (_interesting_agents Sample.Path SampleRun.train_scenario).
Proof.
  exact (derived_slots_bounds Sample.deserialize Sample.AgentType_value
           Sample.Path Sample.Path_resolve Sample.Path_parts
           Sample.Path_joinpath Sample.Path_str Sample.read_csv
           "/data/train" "DR_USA_Roundabout_FT" None
           SampleRun.train_scenario sample_train_init).
Defined.

Lemma layer_keeps_file_rows_witness :
  length (_frames Sample.Path SampleRun.val_scenario)
  = length Sample.val_table /\
  forall (i : nat) (r : Row unit),
    Sample.val_table !! i = Some r ->
    exists a,
      Sample.deserialize (agent_type r) = Ok a /\
      _frames Sample.Path SampleRun.val_scenario !! i
      = Some (mkRow (case_id r) (track_id r) (timestamp_ms r) (Decoded a)
                (kinematics r) (tracks_to_predict r) (interesting_agent r)).
Proof.
  exact (layer_keeps_file_rows Sample.deserialize Sample.AgentType_value
           Sample.Path Sample.Path_resolve Sample.Path_parts
           Sample.Path_joinpath Sample.Path_str Sample.read_csv
           "/data/val" "DR_USA_Roundabout_FT" None SampleRun.val_scenario
           Sample.val_table sample_val_init sample_val_read).
Defined.

Lemma construction_propagates_errors_witness :
  "train" ∈ ["train"; "val"; "test"] /\
  SampleRun.init "/nowhere" "DR_USA_Roundabout_FT" (Some "train")
  = Raise (OSError
             "No such file or directory: /nowhere/DR_USA_Roundabout_FT_train.csv").
Proof.
  assert ("train" ∈ ["train"; "val"; "test"]) as Hs by left.
  split; [exact Hs|].
  destruct (construction_propagates_errors Sample.deserialize
              Sample.AgentType_value Sample.Path Sample.Path_resolve
              Sample.Path_parts Sample.Path_joinpath Sample.Path_str
              Sample.read_csv "/nowhere" "DR_USA_Roundabout_FT" "train" Hs)
    as [Hread _].
  apply Hread. by vm_compute.
Defined.

Lemma split_follows_substrings_witness :
  last (Sample.Path_parts (Sample.Path_resolve "/data/trainval"))
  = Some "trainval" /\
  (dereference_split Sample.Path Sample.Path_parts "/data/trainval"
     (Sample.Path_resolve "/data/trainval") = Ok "train" <->
   exists pre post, "trainval" = pre +:+ "train" +:+ post).
Proof.
  assert (last (Sample.Path_parts (Sample.Path_resolve "/data/trainval"))
          = Some "trainval") as Hseg by reflexivity.
  split; [exact Hseg|].
  destruct (split_follows_substrings Sample.Path Sample.Path_resolve
              Sample.Path_parts "/data/trainval" "trainval" Hseg)
    as (Htrain & _).
  exact Htrain.
Defined.

Lemma registered_splits_resolve_witness :
  "test_single-agent" ∈ SPLITS.*1 /\
  exists s,
    dereference_split Sample.Path Sample.Path_parts
      "/data/test_single-agent" (Sample.Path_resolve "/data/test_single-agent")
    = Ok s /\
    s = "test".
Proof.
  assert ("test_single-agent" ∈ SPLITS.*1) as Hkey
    by (apply (bool_decide_unpack _); by vm_compute).
  split; [exact Hkey|].
  destruct (registered_splits_resolve Sample.deserialize
              Sample.AgentType_value Sample.Path Sample.Path_resolve
              Sample.Path_parts Sample.Path_joinpath Sample.Path_str
              Sample.read_csv "/data/test_single-agent"
              "DR_USA_Roundabout_FT" "test_single-agent" Hkey eq_refl)
    as (s & Hs & _ & Heq & _).
  exists s. split; [exact Hs|exact Heq].
Defined.

Lemma sample_train_case_1_ordered (t : Z) :
  StronglySorted Z.lt
    (map timestamp_ms
       (rows_of_track t
          (filter (fun r => case_id r = 1)
             (_frames Sample.Path SampleRun.train_scenario)))).
Proof.
  replace (filter (fun r => case_id r = 1)
             (_frames Sample.Path SampleRun.train_scenario))
    with [mkRow 1 7 100 (Decoded CAR) tt 0 0;
          mkRow 1 7 1000 (Decoded CAR) tt 0 0;
          mkRow 1 7 4000 (Decoded CAR) tt 0 0;
          mkRow 1 8 100 (Decoded PEDESTRIAN_BICYCLE) tt 0 0;
          mkRow 1 8 4000 (Decoded PEDESTRIAN_BICYCLE) tt 0 0]
    by (by vm_compute).
  unfold rows_of_track. rewrite !filter_cons, filter_nil.
  repeat case_decide; simplify_eq/=; repeat constructor; lia.
Qed.

Lemma current_tracks_hold_one_state_witness :
  exists case,
    SampleRun.get_case SampleRun.train_scenario 1 = Ok case /\
    forall tr, tr ∈ ic_current_tracks case ->
      exists ms, motion_states tr = [ms] /\
                 ms_agent_id ms = agent_id tr /\ ms_timestamp_ms ms = 1000.
Proof.
  eexists. split; [by vm_compute|].
  apply (current_tracks_hold_one_state Sample.deserialize Sample.Path
           SampleRun.train_scenario 1 _ sample_train_case_1_ordered).
  by vm_compute.
Defined.
